(** * combine-mc-stats: merging two generations of Minecraft statistics files

    A shallow embedding of [combine-mc-stats.py] and the properties of its
    merge routine, of its file-name handling and of its effects on the
    file tree.

    - Python integers are unbounded: they are [Z].
    - A JSON object loaded by [json.load] is a [dict]: a finite map with
      string keys, here [gmap string _].  The loops of the script visit
      every key of a dict once; [map_fold] does the same.
    - The file tree, standard output and the ways the process can end
      ([exit()], [sys.exit(msg)], an exception nobody catches) are an
      explicit state and a small state-and-abort monad.  The tree has
      regular files and directories and no symbolic links. *)

From Stdlib Require Import Ascii.
From stdpp Require Import gmap strings list fin_maps sorting pretty.

Local Open Scope Z_scope.

(** ** Statistics documents and the merge (lines 141-173 of the script) *)

Module Stats.

(** "Currently, Minecraft loses its mind if values are larger than
    2,147,483,647". *)
Definition CEILING : Z := 2147483647.

(** [dict[str, dict[str, dict[str, int]] | int]] with the two keys the
    script reads, ["stats"] and ["DataVersion"]. *)
Record StatsDocument := mkDoc {
  DataVersion : Z;
  stats : gmap string (gmap string Z)
}.

(** [output_json = {"stats": {}, "DataVersion": 0}] *)
Definition empty_output : StatsDocument := mkDoc 0 ∅.

(** The body of the loop over the inner keys (lines 162-173), acting on the
    inner dict [output_json["stats"][outer_key]]. *)
Definition add_item (inner_key : string) (value : Z)
    (cat : gmap string Z) : gmap string Z :=
  (* if inner_key not in ...: ... = 0 *)
  let cat := if decide (is_Some (cat !! inner_key)) then cat
             else <[inner_key := 0]> cat in
  (* ... += value *)
  let cat := <[inner_key := default 0 (cat !! inner_key) + value]> cat in
  (* if ... >= 2_147_483_647: ... = 2_147_483_647 *)
  if decide (CEILING ≤ default 0 (cat !! inner_key))
  then <[inner_key := CEILING]> cat
  else cat.

(** The body of the loop over the outer keys (lines 154-173). *)
Definition add_category (outer_key : string) (items : gmap string Z)
    (out : gmap string (gmap string Z)) : gmap string (gmap string Z) :=
  (* if outer_key not in output_json["stats"]: ... = {} *)
  let out := if decide (is_Some (out !! outer_key)) then out
             else <[outer_key := ∅]> out in
  <[outer_key := map_fold add_item (default ∅ (out !! outer_key)) items]> out.

(** One turn of [for file in matched_files] once the file is loaded
    (lines 149-173). *)
Definition absorb (data output_json : StatsDocument) : StatsDocument :=
  mkDoc
    (if decide (DataVersion data > DataVersion output_json)
     then DataVersion data else DataVersion output_json)
    (map_fold add_category (stats output_json) (stats data)).

(** The accumulator after both matched documents have been absorbed. *)
Definition merge (A B : StatsDocument) : StatsDocument :=
  foldl (λ output_json data, absorb data output_json) empty_output [A; B].

(** The data model's invariant for a document. *)
Definition valid (d : StatsDocument) : Prop :=
  0 ≤ DataVersion d ∧
  map_Forall (λ _ items, map_Forall (λ _ v, 0 ≤ v ≤ CEILING) items) (stats d).

#[global] Instance valid_dec d : Decision (valid d).
Proof. unfold valid. apply _. Defined.

(** [d.stats.get(cat, {}).get(k, 0)] *)
Definition get2 (d : StatsDocument) (cat k : string) : Z :=
  default 0 (default ∅ (stats d !! cat) !! k).

(** [cat in d.stats and k in d.stats[cat]] *)
Definition lookup2 (d : StatsDocument) (cat k : string) : option Z :=
  stats d !! cat ≫= λ items, items !! k.

Definition present (d : StatsDocument) (cat k : string) : Prop :=
  is_Some (lookup2 d cat k).

Definition clamp (x : Z) : Z := if decide (CEILING ≤ x) then CEILING else x.

End Stats.

(** ** Strings, file names and paths

    The string methods and the [pathlib] properties the script calls.  A
    path is the list of its components below the file-system root; a
    component holds no ["/"]. *)

Module Names.

Abbreviation Path := (list string).

(** [len(s)] *)
Definition len (s : string) : Z := Z.of_nat (String.length s).

(** [s.find(c)] for a one-character [c]: the lowest index, -1 if absent. *)
Fixpoint find (c : ascii) (s : string) : Z :=
  match s with
  | EmptyString => -1
  | String a s' =>
      if decide (a = c) then 0
      else let i := find c s' in if decide (i < 0) then -1 else i + 1
  end.

(** [s.rfind(c)]: the highest index, -1 if absent. *)
Fixpoint rfind (c : ascii) (s : string) : Z :=
  match s with
  | EmptyString => -1
  | String a s' =>
      let i := rfind c s' in
      if decide (0 ≤ i) then i + 1
      else if decide (a = c) then 0 else -1
  end.

(** [c in s] *)
Definition contains (c : ascii) (s : string) : bool :=
  bool_decide (0 ≤ find c s).

(** [s[:n]] and [s[n:]] for [0 <= n] *)
Fixpoint take (n : nat) (s : string) : string :=
  match n, s with
  | S n', String a s' => String a (take n' s')
  | _, _ => EmptyString
  end.

Fixpoint drop (n : nat) (s : string) : string :=
  match n, s with
  | S n', String _ s' => drop n' s'
  | _, _ => s
  end.

(** [PurePath.suffix]: "the final component's last suffix, if any". *)
Definition suffix (name : string) : string :=
  let i := rfind "." name in
  if decide (0 < i < len name - 1) then drop (Z.to_nat i) name else "".

(** [PurePath.stem]: "the final path component, minus its last suffix". *)
Definition stem (name : string) : string :=
  let i := rfind "." name in
  if decide (0 < i < len name - 1) then take (Z.to_nat i) name else name.

(** [PurePath.name] *)
Definition name (p : Path) : string := List.last p "".

(** [fnmatch] for patterns made of literal characters and [*], which is
    all the script's three patterns use; matching is case-sensitive. *)
Fixpoint fnmatch (nm pat : string) {struct pat} : bool :=
  match pat with
  | EmptyString => bool_decide (nm = "")
  | String p pat' =>
      if decide (p = "*"%char) then
        (fix star (nm : string) : bool :=
           fnmatch nm pat' ||
           match nm with
           | EmptyString => false
           | String _ nm' => star nm'
           end) nm
      else
        match nm with
        | EmptyString => false
        | String a nm' => bool_decide (a = p) && fnmatch nm' pat'
        end
  end.

(** The patterns without a [*]. *)
Fixpoint literal (pat : string) : Prop :=
  match pat with
  | EmptyString => True
  | String p pat' => p ≠ "*"%char ∧ literal pat'
  end.

(** The order [sorted] uses on paths: component by component, each
    component by code point. *)
Fixpoint path_leb (p q : Path) : bool :=
  match p, q with
  | [], _ => true
  | _ :: _, [] => false
  | a :: p', b :: q' =>
      match String.compare a b with
      | Lt => true
      | Gt => false
      | Eq => path_leb p' q'
      end
  end.

Definition path_le (p q : Path) : Prop := path_leb p q.

#[global] Instance path_le_dec : RelDecision path_le :=
  λ p q, decide (Is_true (path_leb p q)).

(** [sorted(...)] *)
Definition sorted (l : list Path) : list Path := merge_sort path_le l.

(** [str(p)] of an absolute, resolved path. *)
Definition str_abs (p : Path) : string := "/" +:+ String.concat "/" p.

(** [Path(s)]: the text is cut at ["/"]; empty and ["."] parts go, and a
    leading ["/"] (or exactly two) is kept as the root. *)
Fixpoint split_on (c : ascii) (s : string) : list string :=
  match s with
  | EmptyString => [EmptyString]
  | String a s' =>
      if decide (a = c) then EmptyString :: split_on c s'
      else match split_on c s' with
           | x :: r => String a x :: r
           | [] => [String a EmptyString]
           end
  end.

Record PurePath := mkPure { root : string; parts : list string }.

Definition PurePath_of_str (s : string) : PurePath :=
  mkPure
    (if String.prefix "///" s then "/"
     else if String.prefix "//" s then "//"
     else if String.prefix "/" s then "/" else "")
    (filter (λ c, c ≠ "" ∧ c ≠ ".") (split_on "/" s)).

Definition PurePath_of_abs (p : Path) : PurePath := mkPure "/" p.

(** [str(path)] *)
Definition str (p : PurePath) : string :=
  match root p, parts p with
  | EmptyString, [] => "."
  | r, ps => r +:+ String.concat "/" ps
  end.

(** The place a path denotes, [cwd] being the working directory:
    [".."] steps are taken on the text (no symbolic links). *)
Definition locate (cwd : Path) (p : PurePath) : Path :=
  foldl (λ acc c, if decide (c = "..") then removelast acc else acc ++ [c])
        (if decide (root p = "") then cwd else []) (parts p).

(** [target / name] for a one-component [name]. *)
Definition joinpath (target : Path) (nm : string) : Path := target ++ [nm].

(** [p] lies somewhere below the directory [target]. *)
Definition below (target p : Path) : Prop := target `prefix_of` p ∧ p ≠ target.

End Names.

(** ** The process: file tree, output streams, ways to end *)

Module Sys.
Import Stats Names.

(** What a file holds: a statistics document as [json.load] hands it to
    the script, or anything else.  The entries the scan patterns match are
    taken to be regular files (the script's "make sure that the target
    folder only has the renamed files in it"). *)
Inductive FileData :=
  | Json (d : StatsDocument)
  | Other.

(** [written] is a ghost log of the [json.dump] calls, oldest first. *)
Record World := mkWorld {
  files : gmap Path FileData;
  dirs : gset Path;
  cwd : Path;
  stdout : list string;
  written : list (Path * StatsDocument)
}.

Inductive PyExc :=
  | IndexError
  | JSONDecodeError
  | FileNotFoundError
  | IsADirectoryError.

(** [SystemExit None] is [exit()], [SystemExit (Some msg)] is
    [sys.exit(msg)]; anything else that ends the run is an exception nobody
    catches. *)
Inductive Raised :=
  | SystemExit (arg : option string)
  | Uncaught (e : PyExc).

(** The exit status of the interpreter: [exit()] is 0; [sys.exit] of a
    string prints it on standard error and gives 1, as does a traceback. *)
Definition exit_status (r : Raised + unit) : Z :=
  match r with
  | inr _ => 0
  | inl (SystemExit None) => 0
  | inl (SystemExit (Some _)) => 1
  | inl (Uncaught _) => 1
  end.

Definition M (A : Type) : Type := World → (Raised + A) * World.

#[global] Instance M_ret : MRet M := λ A a w, (inr a, w).

#[global] Instance M_bind : MBind M := λ A B f m w,
  match m w with
  | (inl r, w') => (inl r, w')
  | (inr a, w') => f a w'
  end.

Definition raise {A} (r : Raised) : M A := λ w, (inl r, w).

(** [exit()] and [sys.exit(msg)] *)
Definition exit_ {A} : M A := raise (SystemExit None).
Definition sys_exit {A} (msg : string) : M A := raise (SystemExit (Some msg)).

Definition with_stdout (w : World) (lines : list string) : World :=
  mkWorld (files w) (dirs w) (cwd w) (stdout w ++ lines) (written w).

(** [print(line)] *)
Definition print (line : string) : M unit := λ w,
  (inr tt, with_stdout w [line]).

(** [Path.cwd()] *)
Definition Path_cwd : M PurePath := λ w, (inr (PurePath_of_abs (cwd w)), w).

Definition exists_at (w : World) (p : Path) : Prop :=
  p = [] ∨ p ∈ dirs w ∨ is_Some (files w !! p).

(** [path.exists()] *)
Definition exists_ (path : PurePath) : M bool := λ w,
  (inr (bool_decide (exists_at w (locate (cwd w) path))), w).

(** [path.resolve()] *)
Definition resolve (path : PurePath) : M Path := λ w,
  (inr (locate (cwd w) path), w).

(** [target.rglob(pat)]: the files anywhere below [target] whose name
    matches. *)
Definition scan (w : World) (target : Path) (pat : string) : list Path :=
  filter (λ p, below target p ∧ fnmatch (name p) pat)
         (map_to_list (files w)).*1.

Definition rglob (target : Path) (pat : string) : M (list Path) := λ w,
  (inr (scan w target pat), w).

(** [with open(file, "r") as read_file: data = dict(json.load(read_file))],
    together with the two subscripts the script takes of [data]. *)
Definition load (file : Path) : M StatsDocument := λ w,
  match files w !! file with
  | Some (Json d) => (inr d, w)
  | Some Other => (inl (Uncaught JSONDecodeError), w)
  | None => (inl (Uncaught FileNotFoundError), w)
  end.

(** [with open(path, "w") as fp: json.dump(doc, fp, indent=4)] *)
Definition dump (path : Path) (doc : StatsDocument) : M unit := λ w,
  if decide (path ∈ dirs w) then (inl (Uncaught IsADirectoryError), w)
  else (inr tt, mkWorld (<[path := Json doc]> (files w)) (dirs w) (cwd w)
                        (stdout w) (written w ++ [(path, doc)])).

(** [for x in l: s = body(x, s)] *)
Fixpoint for_each {A S} (l : list A) (body : A → S → M S) (s : S) : M S :=
  match l with
  | [] => mret s
  | x :: l' => s' ← body x s; for_each l' body s'
  end.

End Sys.

(** ** The script *)

Module Script.
Import Stats Names Sys.

Definition nl : string := String "010" EmptyString.

Definition path_not_found (path : PurePath) : string :=
  "Specified path not found. " +:+ str path +:+
  " is not a valid filesystem path.".

Definition no_json_files (target : Path) : string :=
  nl +:+ "Error: There are no JSON files under " +:+ str_abs target.

Definition unexpected_name (file_name : string) : string :=
  nl +:+ "Error: Aborting script.   " +:+ file_name +:+
  " has unexpected name." +:+ nl +:+
  "       Valid name format: {UUID}.X.json, where X is a sequence number.".

(** Lines 60-82, after [argparse] has put the remaining arguments into
    [args.path] (it answers [-h] and [-v] itself). *)
Definition handle_command_line (args_path : list string) : M Path :=
  let args_path := match args_path with s :: _ => s | [] => "" end in
  path ← (if decide (args_path = "") then Path_cwd
          else mret (PurePath_of_str args_path));
  found ← exists_ path;
  if negb found then
    print (path_not_found path);; exit_
  else resolve path.

(** Lines 117-124, and again 127-134 for the second file. *)
Definition capture_uuid (file1 : Path) : M string :=
  match suffix (name file1) with
  | EmptyString => raise (Uncaught IndexError)
  | String suffix1 _ =>
      if negb (contains suffix1 (stem (name file1))) then
        sys_exit (unexpected_name (name file1))
      else
        let index1 := find suffix1 (stem (name file1)) in
        mret (take (Z.to_nat index1) (stem (name file1)))
  end.

(** Lines 139-180: both files are absorbed, then the result is written. *)
Definition combine_pair (target : Path) (uuid1 : string)
    (file1 file2 : Path) : M unit :=
  let matched_files := [file1; file2] in
  output_json ← for_each matched_files
    (λ file output_json, data ← load file; mret (absorb data output_json))
    empty_output;
  let output_file_path := joinpath target (uuid1 +:+ ".json") in
  dump output_file_path output_json.

(** Lines 127-180: the body of the loop over [json2_files]. *)
Definition compare_with (target : Path) (file1 : Path) (uuid1 : string)
    (file2 : Path) (matches : nat) : M nat :=
  uuid2 ← capture_uuid file2;
  if decide (uuid1 = uuid2) then
    print (uuid1 +:+ " Match found");;
    combine_pair target uuid1 file1 file2;;
    mret (S matches)
  else mret matches.

(** Lines 116-180: the body of the loop over [json1_files]. *)
Definition scan_second (target : Path) (json2_files : list Path)
    (file1 : Path) (matches : nat) : M nat :=
  uuid1 ← capture_uuid file1;
  for_each json2_files (compare_with target file1 uuid1) matches.

Definition combining_line (n1 n2 : nat) : string :=
  "Combining from " +:+ pretty n1 +:+ " old files and " +:+ pretty n2 +:+
  " new files".

Definition matched_line (n : nat) : string :=
  "Matched " +:+ pretty n +:+ " files".

(** Lines 109-182. *)
Definition combine_files (target : Path)
    (json1_files json2_files : list Path) : M unit :=
  print "";;
  print (combining_line (length json1_files) (length json2_files));;
  matches ← for_each json1_files (scan_second target json2_files) 0%nat;
  print (matched_line matches).

(** Lines 86-182. *)
Definition main (args_path : list string) : M unit :=
  target ← handle_command_line args_path;
  found ← rglob target "*.json";
  let json_files := sorted found in
  let files_found := length json_files in
  if decide (files_found = 0%nat) then sys_exit (no_json_files target)
  else
    found1 ← rglob target "*.1.json";
    let json1_files := sorted found1 in
    found2 ← rglob target "*.2.json";
    let json2_files := sorted found2 in
    combine_files target json1_files json2_files.

(** *** What a run amounts to

    The pure counterparts of the loops above, used to state what [main]
    does. *)

(** The text [capture_uuid] cuts out of a file name: the stem up to its
    first ["."]. *)
Definition key (nm : string) : string :=
  take (Z.to_nat (find "." (stem nm))) (stem nm).

(** The patterns ["*.1.json"] and ["*.2.json"], and the names they match. *)
Definition gen_pattern (digit : ascii) : string :=
  String "*" (String "." (String digit ".json")).

Definition gen_name (x : string) (digit : ascii) : string :=
  x +:+ String "." (String digit ".json").

Definition generation (nm : string) : Prop :=
  fnmatch nm (gen_pattern "1") ∨ fnmatch nm (gen_pattern "2").

(** The sorted lists [json1_files] and [json2_files]. *)
Definition generation_files (w : World) (target : Path) (digit : ascii)
    : list Path :=
  sorted (scan w target (gen_pattern digit)).

(** The pairs the nested loops find equal, in the order they meet them. *)
Definition pairs_with (file1 : Path) (json2_files : list Path)
    : list (Path * Path) :=
  file2 ← json2_files;
  if decide (key (name file1) = key (name file2)) then [(file1, file2)]
  else [].

Definition pairs (json1_files json2_files : list Path)
    : list (Path * Path) :=
  file1 ← json1_files; pairs_with file1 json2_files.

Definition doc_at (w : World) (file : Path) : option StatsDocument :=
  match files w !! file with
  | Some (Json d) => Some d
  | _ => None
  end.

Definition output_path (target : Path) (pr : Path * Path) : Path :=
  joinpath target (key (name pr.1) +:+ ".json").

(** What is written for a pair, the files being those of [w]. *)
Definition output_of (w : World) (target : Path) (pr : Path * Path)
    : Path * StatsDocument :=
  (output_path target pr,
   merge (default empty_output (doc_at w pr.1))
         (default empty_output (doc_at w pr.2))).

Definition match_line (pr : Path * Path) : string :=
  key (name pr.1) +:+ " Match found".

(** Both files of every pair load, and no directory sits where a result
    goes. *)
Definition readable (w : World) (target : Path)
    (prs : list (Path * Path)) : Prop :=
  Forall (λ pr, is_Some (doc_at w pr.1) ∧ is_Some (doc_at w pr.2) ∧
                output_path target pr ∉ dirs w) prs.

#[global] Instance readable_dec w target prs : Decision (readable w target prs).
Proof. apply Forall_dec. intros pr. apply _. Defined.

(** The world after one pair was handled, the documents being read in
    [w0]. *)
Definition step_pair (w0 : World) (target : Path) (w : World)
    (pr : Path * Path) : World :=
  let out := output_of w0 target pr in
  mkWorld (<[out.1 := Json out.2]> (files w)) (dirs w) (cwd w)
          (stdout w ++ [match_line pr]) (written w ++ [out]).

(** A run that gets through: the header, the pairs in turn, the count. *)
Definition run_result (w : World) (target : Path) : World :=
  let json1_files := generation_files w target "1" in
  let json2_files := generation_files w target "2" in
  let prs := pairs json1_files json2_files in
  with_stdout
    (foldl (step_pair w target)
       (with_stdout w
          [""; combining_line (length json1_files) (length json2_files)])
       prs)
    [matched_line (length prs)].

(** The path the command line stands for. *)
Definition arg_path (w : World) (args_path : list string) : PurePath :=
  let args_path := match args_path with s :: _ => s | [] => "" end in
  if decide (args_path = "") then PurePath_of_abs (cwd w)
  else PurePath_of_str args_path.

(** The run ends on the naming error. *)
Definition name_abort {A} (r : (Raised + A) * World) : Prop :=
  ∃ nm, r.1 = inl (SystemExit (Some (unexpected_name nm))).


(** The files of [w] that matter to the pairing are as in [w0]. *)
Definition agree (w0 w : World) : Prop :=
  dirs w = dirs w0 ∧
  ∀ p, generation (name p) → files w !! p = files w0 !! p.

End Script.

(** ** Sample documents and file trees *)

Module Samples.
Import Stats Names Sys.

Definition old_doc : StatsDocument :=
  mkDoc 100 {[ "custom" := {[ "jump" := 1500000000; "walk" := 7 ]} ]}.

Definition new_doc : StatsDocument :=
  mkDoc 200 {[ "custom" := {[ "jump" := 1500000000 ]};
               "mined" := {[ "stone" := 3 ]} ]}.

Definition stats_dir : Path := ["srv"; "stats"].

Definition tree (fs : gmap Path FileData) : World :=
  mkWorld fs {[ ["srv"]; stats_dir ]} ["home"] [] [].

(** Two generations of one player, and a first generation left alone
    whose file is not even JSON. *)
Definition two_generations : World := tree
  {[ stats_dir ++ ["1234.1.json"] := Json old_doc;
     stats_dir ++ ["1234.2.json"] := Json new_doc;
     stats_dir ++ ["5678.1.json"] := Other ]}.


(** No JSON file at all. *)
Definition no_json : World := tree {[ stats_dir ++ ["notes.txt"] := Other ]}.


End Samples.

(** ** Further sample trees *)

Module MoreSamples.
Import Stats Names Sys.

(** The tree of [Samples.two_generations], seen from inside the
    statistics directory. *)
Definition inside_stats_dir : World :=
  mkWorld (files Samples.two_generations) (dirs Samples.two_generations)
          Samples.stats_dir [] [].

(** One player's first generation kept in two subdirectories. *)
Definition two_copies : World :=
  mkWorld
    {[ Samples.stats_dir ++ ["a"; "1234.1.json"] := Json Samples.old_doc;
       Samples.stats_dir ++ ["b"; "1234.1.json"] := Json Samples.new_doc;
       Samples.stats_dir ++ ["1234.2.json"] := Json Samples.new_doc ]}
    {[ ["srv"]; Samples.stats_dir; Samples.stats_dir ++ ["a"];
       Samples.stats_dir ++ ["b"] ]}
    ["home"] [] [].


End MoreSamples.

(** ** What any run leaves of the file tree *)

Module Frame.
Import Stats Names Sys Script.

(** A path directly in [target] named [k.json], [k] holding no ["."]. *)
Definition result_path (target p : Path) : Prop :=
  ∃ k, find "." k = -1 ∧ p = joinpath target (k +:+ ".json").

Definition apply_writes (fs : gmap Path FileData)
    (log : list (Path * StatsDocument)) : gmap Path FileData :=
  foldl (λ fs out, <[out.1 := Json out.2]> fs) fs log.

(** [w] is [w0] after some lines were printed and some documents
    written, each to a result path of [target]. *)
Definition grown (w0 : World) (target : Path) (w : World) : Prop :=
  dirs w = dirs w0 ∧ cwd w = cwd w0 ∧
  ∃ log lines,
    Forall (λ out, result_path target out.1) log ∧
    files w = apply_writes (files w0) log ∧
    written w = written w0 ++ log ∧
    stdout w = stdout w0 ++ lines.

(** The two exceptions the loops can let through. *)
Definition load_or_write_error (r : Raised) : Prop :=
  r = Uncaught JSONDecodeError ∨ r = Uncaught IsADirectoryError.

Definition fine {A} (w0 : World) (target : Path)
    (r : (Raised + A) * World) : Prop :=
  grown w0 target r.2 ∧ ∀ e, r.1 = inl e → load_or_write_error e.

(** Files with a generation name that the tree [w0] holds. *)
Definition found_generation (w0 : World) (l : list Path) : Prop :=
  Forall (λ p, generation (name p) ∧ is_Some (files w0 !! p)) l.

End Frame.

(** * Properties *)

(** ** The definitions on small inputs *)

Module Checks.
Import Stats Names Sys Script.

Example suffix_stem_of_generation_name :
  suffix "1234.1.json" = ".json" ∧ stem "1234.1.json" = "1234.1".
Proof. split; reflexivity. Qed.

Example suffix_stem_of_plain_name :
  suffix "1234.json" = ".json" ∧ stem "1234.json" = "1234".
Proof. split; reflexivity. Qed.

Example suffix_stem_of_dot_file :
  suffix ".bashrc" = EmptyString ∧ stem ".bashrc" = ".bashrc".
Proof. split; reflexivity. Qed.

Example fnmatch_generation_pattern :
  fnmatch "1234.1.json" "*.1.json" = true ∧
  fnmatch ".1.json" "*.1.json" = true ∧
  fnmatch "1234.json" "*.1.json" = false ∧
  fnmatch "1234.json" "*.json" = true ∧
  fnmatch "1234.1.jsonx" "*.1.json" = false.
Proof. repeat split; vm_compute; reflexivity. Qed.

Example key_of_uuid_name :
  key "069a79f4-44e9-4726-a5be-fca90e38aaf5.2.json" =
  "069a79f4-44e9-4726-a5be-fca90e38aaf5".
Proof. vm_compute. reflexivity. Qed.

Example sorted_by_component :
  sorted [["b"; "a"]; ["a"; "z"]; ["a"]; ["B"]] =
  [["B"]; ["a"]; ["a"; "z"]; ["b"; "a"]].
Proof. vm_compute. reflexivity. Qed.

Example path_text :
  str (PurePath_of_str "/srv//stats/./") = "/srv/stats" ∧
  locate ["home"] (PurePath_of_str "../srv/stats") = ["srv"; "stats"].
Proof. split; vm_compute; reflexivity. Qed.

(** The specification's first scenario: 5 and 10 jumps, versions 100 and
    200. *)
Example scenario_sum :
  merge (mkDoc 100 {[ "custom" := {[ "jump" := 5 ]} ]})
        (mkDoc 200 {[ "custom" := {[ "jump" := 10 ]} ]}) =
  mkDoc 200 {[ "custom" := {[ "jump" := 15 ]} ]}.
Proof. vm_compute. reflexivity. Qed.

(** Its fourth: a sum of 3,000,000,000 is stored as the ceiling. *)
Example scenario_ceiling :
  lookup2 (merge Samples.old_doc Samples.new_doc) "custom" "jump" =
  Some 2147483647.
Proof. vm_compute. reflexivity. Qed.

Example scenario_run :
  (main ["/srv/stats"] Samples.two_generations).1 = inr tt ∧
  stdout (main ["/srv/stats"] Samples.two_generations).2 =
    [EmptyString; "Combining from 2 old files and 1 new files";
     "1234 Match found"; "Matched 1 files"].
Proof. split; vm_compute; reflexivity. Qed.

End Checks.

Module StatsFacts.
Import Stats.

Lemma doc_eq (d e : StatsDocument) :
  DataVersion d = DataVersion e → stats d = stats e → d = e.
Proof. destruct d, e; simpl; congruence. Qed.

Lemma clamp_min x : clamp x = Z.min CEILING x.
Proof. unfold clamp. case_decide; lia. Qed.

Lemma add_item_eq k v (cat : gmap string Z) :
  add_item k v cat = <[k := clamp (default 0 (cat !! k) + v)]> cat.
Proof.
  unfold add_item, clamp.
  destruct (cat !! k) as [x|] eqn:E; simpl.
  - rewrite E, lookup_insert_eq; simpl.
    case_decide; [by rewrite insert_insert_eq | done].
  - rewrite !lookup_insert_eq, ?insert_insert_eq; simpl.
    by case_decide.
Qed.

Lemma add_items_lookup (items inner : gmap string Z) (k : string) :
  map_fold add_item inner items !! k =
  match items !! k with
  | Some v => Some (clamp (default 0 (inner !! k) + v))
  | None => inner !! k
  end.
Proof.
  revert k.
  apply (map_fold_weak_ind
    (λ (r : gmap string Z) (m : gmap string Z), ∀ k, r !! k =
       match m !! k with
       | Some v => Some (clamp (default 0 (inner !! k) + v))
       | None => inner !! k
       end)).
  - intros k. by rewrite lookup_empty.
  - intros i x m r Hi IH k. rewrite add_item_eq.
    destruct (decide (i = k)) as [->|Hne].
    + rewrite !lookup_insert_eq. rewrite IH, Hi. done.
    + rewrite !lookup_insert_ne by done. apply IH.
Qed.

Lemma add_category_eq c items (out : gmap string (gmap string Z)) :
  add_category c items out =
  <[c := map_fold add_item (default ∅ (out !! c)) items]> out.
Proof.
  unfold add_category.
  destruct (out !! c) as [x|] eqn:E; simpl.
  - by rewrite E.
  - rewrite lookup_insert_eq; simpl. by rewrite insert_insert_eq.
Qed.

Lemma add_categories_lookup (data out : gmap string (gmap string Z)) c :
  map_fold add_category out data !! c =
  match data !! c with
  | Some items => Some (map_fold add_item (default ∅ (out !! c)) items)
  | None => out !! c
  end.
Proof.
  revert c.
  apply (map_fold_weak_ind
    (λ (r : gmap string (gmap string Z)) (m : gmap string (gmap string Z)),
       ∀ c, r !! c =
       match m !! c with
       | Some items => Some (map_fold add_item (default ∅ (out !! c)) items)
       | None => out !! c
       end)).
  - intros c. by rewrite lookup_empty.
  - intros i x m r Hi IH c. rewrite add_category_eq.
    destruct (decide (i = c)) as [->|Hne].
    + rewrite !lookup_insert_eq. rewrite IH, Hi. done.
    + rewrite !lookup_insert_ne by done. apply IH.
Qed.

Lemma merge_DataVersion A B :
  DataVersion (merge A B) = Z.max (Z.max 0 (DataVersion A)) (DataVersion B).
Proof.
  unfold merge, absorb; simpl. repeat case_decide; lia.
Qed.

(** What ends up under a category of the merged document. *)
Lemma merge_stats_lookup A B c :
  stats (merge A B) !! c =
  match stats A !! c, stats B !! c with
  | None, None => None
  | Some a, None => Some (map_fold add_item ∅ a)
  | None, Some b => Some (map_fold add_item ∅ b)
  | Some a, Some b => Some (map_fold add_item (map_fold add_item ∅ a) b)
  end.
Proof.
  unfold merge, absorb; simpl.
  rewrite !add_categories_lookup. rewrite lookup_empty.
  destruct (stats A !! c), (stats B !! c); done.
Qed.


Lemma valid_leaf d cat items k v :
  valid d → stats d !! cat = Some items → items !! k = Some v →
  0 ≤ v ≤ CEILING.
Proof.
  intros [_ H] Hc Hk.
  exact (map_Forall_lookup_1 _ _ _ _ (map_Forall_lookup_1 _ _ _ _ H Hc) Hk).
Qed.

(** The merged value under a category and key, whatever the documents. *)
Lemma merge_lookup2 A B cat k :
  lookup2 (merge A B) cat k =
  match lookup2 A cat k, lookup2 B cat k with
  | None, None => None
  | Some a, None => Some (clamp a)
  | None, Some b => Some (clamp b)
  | Some a, Some b => Some (clamp (clamp a + b))
  end.
Proof.
  unfold lookup2. rewrite merge_stats_lookup.
  destruct (stats A !! cat) as [a|], (stats B !! cat) as [b|]; simpl;
    rewrite ?add_items_lookup, ?lookup_empty; try done.
  destruct (a !! k), (b !! k); simpl; rewrite ?Z.add_0_l; done.
Qed.

Lemma valid_lookup2 d cat k v :
  valid d → lookup2 d cat k = Some v → 0 ≤ v ≤ CEILING.
Proof.
  unfold lookup2. intros Hv H.
  destruct (stats d !! cat) as [items|] eqn:E; [|done].
  simpl in H. eauto using valid_leaf.
Qed.

Lemma get2_lookup2 d cat k : get2 d cat k = default 0 (lookup2 d cat k).
Proof.
  unfold get2, lookup2. destruct (stats d !! cat); simpl; [done|].
  by rewrite lookup_empty.
Qed.

End StatsFacts.


Module StatsClaims.
Import Stats StatsFacts.

(** C1. For valid documents [A] and [B] and every category and item key
    present in [A] or in [B], the merged value is
    [min(2147483647, A.stats.get(cat,{}).get(k,0) + B.stats.get(cat,{}).get(k,0))]:
    an absent category or key counts 0 and the sum saturates at the
    ceiling. *)
Theorem merge_saturating_sum A B cat k :
  valid A → valid B →
  present A cat k ∨ present B cat k →
  lookup2 (merge A B) cat k =
    Some (Z.min CEILING (get2 A cat k + get2 B cat k)).
Proof.
  intros HA HB Hp. rewrite merge_lookup2, !get2_lookup2.
  pose proof (valid_lookup2 A cat k) as Ha.
  pose proof (valid_lookup2 B cat k) as Hb.
  unfold present in Hp.
  destruct (lookup2 A cat k) as [a|], (lookup2 B cat k) as [b|]; simpl.
  - specialize (Ha a HA eq_refl). specialize (Hb b HB eq_refl).
    f_equal. rewrite !clamp_min. lia.
  - specialize (Ha a HA eq_refl). f_equal. rewrite clamp_min. lia.
  - specialize (Hb b HB eq_refl). f_equal. rewrite clamp_min. lia.
  - destruct Hp as [[? ?]|[? ?]]; discriminate.
Qed.

Lemma merge_saturating_sum_witness :
  lookup2 (merge Samples.old_doc Samples.new_doc) "custom" "jump" =
    Some (Z.min CEILING (get2 Samples.old_doc "custom" "jump" +
                         get2 Samples.new_doc "custom" "jump")).
Proof.
  apply merge_saturating_sum.
  - apply (bool_decide_unpack _). vm_compute. exact I.
  - apply (bool_decide_unpack _). vm_compute. exact I.
  - left. apply (bool_decide_unpack _). vm_compute. exact I.
Defined.

(** C2. For valid documents (each with [DataVersion >= 0]) the merged
    document carries the larger of the two version markers. *)
Theorem merge_keeps_highest_DataVersion A B :
  valid A → valid B →
  DataVersion (merge A B) = Z.max (DataVersion A) (DataVersion B).
Proof.
  intros [HA _] [HB _]. rewrite merge_DataVersion. lia.
Qed.

Lemma merge_keeps_highest_DataVersion_witness :
  DataVersion (merge Samples.old_doc Samples.new_doc) =
  Z.max (DataVersion Samples.old_doc) (DataVersion Samples.new_doc).
Proof.
  apply merge_keeps_highest_DataVersion.
  - apply (bool_decide_unpack _). vm_compute. exact I.
  - apply (bool_decide_unpack _). vm_compute. exact I.
Defined.

(** C7. Merging is commutative on valid documents: [merge A B] and
    [merge B A] have the same version marker and the same statistics. *)
Theorem merge_comm A B :
  valid A → valid B → merge A B = merge B A.
Proof.
  intros HA HB. apply doc_eq.
  - rewrite !merge_DataVersion. destruct HA, HB. lia.
  - apply map_eq. intros c. rewrite !merge_stats_lookup.
    destruct HA as [_ HA], HB as [_ HB].
    destruct (stats A !! c) as [a|] eqn:Ea, (stats B !! c) as [b|] eqn:Eb;
      try done.
    f_equal. apply map_eq. intros k.
    pose proof (map_Forall_lookup_1 _ _ _ _ HA Ea) as Fa.
    pose proof (map_Forall_lookup_1 _ _ _ _ HB Eb) as Fb.
    rewrite !add_items_lookup, !lookup_empty.
    destruct (a !! k) as [x|] eqn:Ex, (b !! k) as [y|] eqn:Ey; simpl;
      try done.
    apply (map_Forall_lookup_1 _ _ _ _ Fa) in Ex.
    apply (map_Forall_lookup_1 _ _ _ _ Fb) in Ey.
    f_equal. rewrite !clamp_min. lia.
Qed.

Lemma merge_comm_witness :
  merge Samples.old_doc Samples.new_doc = merge Samples.new_doc Samples.old_doc.
Proof.
  apply merge_comm.
  - apply (bool_decide_unpack _). vm_compute. exact I.
  - apply (bool_decide_unpack _). vm_compute. exact I.
Defined.

End StatsClaims.

(** ** File names: what the scan patterns match and what the script
    cuts out of a matched name *)

Module NameFacts.
Import Names.

Lemma str_app_nil y : "" +:+ y = y.
Proof. reflexivity. Qed.

Lemma str_app_cons a x y : String a x +:+ y = String a (x +:+ y).
Proof. reflexivity. Qed.

Ltac str_simpl :=
  repeat (rewrite str_app_cons || rewrite str_app_nil); simpl.

Lemma len_nonneg s : 0 ≤ len s.
Proof. unfold len. lia. Qed.

Lemma len_nil : len "" = 0.
Proof. reflexivity. Qed.

Lemma len_cons a s : len (String a s) = len s + 1.
Proof. unfold len. simpl. lia. Qed.

Lemma len_app x y : len (x +:+ y) = len x + len y.
Proof.
  induction x as [|a x IH]; str_simpl; rewrite ?len_nil, ?len_cons; lia.
Qed.

Lemma app_assoc_str x y z : (x +:+ y) +:+ z = x +:+ (y +:+ z).
Proof. induction x as [|a x IH]; str_simpl; [done|]. by rewrite IH. Qed.

Lemma find_range c s : -1 ≤ find c s < len s.
Proof.
  induction s as [|a s IH]; simpl; rewrite ?len_nil, ?len_cons; [lia|].
  repeat case_decide; lia.
Qed.

Lemma rfind_range c s : -1 ≤ rfind c s < len s.
Proof.
  induction s as [|a s IH]; simpl; rewrite ?len_nil, ?len_cons; [lia|].
  repeat case_decide; lia.
Qed.

Lemma find_app c x y :
  find c (x +:+ y) =
  if decide (0 ≤ find c x) then find c x
  else if decide (0 ≤ find c y) then len x + find c y else -1.
Proof.
  induction x as [|a x IH]; str_simpl.
  - pose proof (find_range c y). rewrite len_nil.
    repeat case_decide; lia.
  - rewrite IH, len_cons. pose proof (find_range c x).
    pose proof (find_range c y). repeat case_decide; lia.
Qed.

Lemma rfind_app c x y :
  rfind c (x +:+ y) =
  if decide (0 ≤ rfind c y) then len x + rfind c y else rfind c x.
Proof.
  induction x as [|a x IH]; str_simpl.
  - pose proof (rfind_range c y). rewrite len_nil.
    repeat case_decide; lia.
  - rewrite IH, len_cons. pose proof (rfind_range c x).
    pose proof (rfind_range c y). repeat case_decide; lia.
Qed.

Lemma take_app_len x y : take (String.length x) (x +:+ y) = x.
Proof.
  induction x as [|a x IH]; str_simpl; [by destruct y|]. by rewrite IH.
Qed.

Lemma drop_app_len x y : drop (String.length x) (x +:+ y) = y.
Proof. induction x as [|a x IH]; str_simpl; [by destruct y|]. done. Qed.

(** The text before the first [c] holds no [c]. *)
Lemma find_take c s :
  0 ≤ find c s → find c (take (Z.to_nat (find c s)) s) = -1.
Proof.
  induction s as [|a s IH]; simpl; [lia|].
  pose proof (find_range c s).
  destruct (decide (a = c)) as [->|Hne]; simpl; [done|].
  case_decide; [lia|]. intros _.
  replace (Z.to_nat (find c s + 1)) with (S (Z.to_nat (find c s))) by lia.
  simpl. rewrite decide_False by done. rewrite IH by lia. by case_decide.
Qed.

(** A pattern of literal characters matches its own text only. *)
Lemma fnmatch_literal pat : literal pat → ∀ nm, fnmatch nm pat ↔ nm = pat.
Proof.
  induction pat as [|p pat IH]; simpl.
  - intros _ nm. by rewrite bool_decide_spec.
  - intros [Hp Hl] nm. rewrite decide_False by done.
    destruct nm as [|a nm]; [done|].
    rewrite andb_True, bool_decide_spec, (IH Hl).
    split; [by intros [-> ->] | by intros [= -> ->]].
Qed.

(** A leading [*] takes any prefix of the name. *)
Lemma fnmatch_star pat nm :
  fnmatch nm (String "*" pat) ↔ ∃ x y, nm = x +:+ y ∧ fnmatch y pat.
Proof.
  simpl.
  induction nm as [|a nm IH].
  - rewrite orb_True. split.
    + intros [H|[]]. by exists "", "".
    + intros (x & y & E & H). left.
      destruct x; [|done]. rewrite str_app_nil in E. by subst.
  - rewrite orb_True, IH. split.
    + intros [H|(x & y & -> & H)].
      * by exists "", (String a nm).
      * by exists (String a x), y.
    + intros (x & y & E & H). destruct x as [|b x].
      * left. rewrite str_app_nil in E. by subst.
      * right. rewrite str_app_cons in E. injection E as -> ->.
        by exists x, y.
Qed.

Lemma fnmatch_star_suffix lit nm :
  literal lit → fnmatch nm (String "*" lit) ↔ ∃ x, nm = x +:+ lit.
Proof.
  intros Hl. rewrite fnmatch_star. split.
  - intros (x & y & -> & H). apply (fnmatch_literal _ Hl) in H as ->. eauto.
  - intros [x ->]. exists x, lit. split; [done|]. by apply fnmatch_literal.
Qed.

End NameFacts.

(** ** What the script makes of a generation file's name *)

Module KeyFacts.
Import Names Sys Script NameFacts.

Lemma gen_pattern_match d nm :
  d ≠ "*"%char → fnmatch nm (gen_pattern d) ↔ ∃ x, nm = gen_name x d.
Proof.
  intros Hd. unfold gen_pattern, gen_name.
  apply fnmatch_star_suffix. simpl. repeat split; done.
Qed.

Lemma generation_inv nm :
  generation nm → ∃ x d, d ≠ "."%char ∧ nm = gen_name x d.
Proof.
  intros [H|H]; apply gen_pattern_match in H as [x ->]; try done;
    eexists _, _; (split; [|reflexivity]); done.
Qed.

Lemma gen_name_split x d :
  gen_name x d = (x +:+ String "." (String d "")) +:+ ".json".
Proof. unfold gen_name. by rewrite app_assoc_str. Qed.

Lemma rfind_gen_name x d : rfind "." (gen_name x d) = len x + 2.
Proof. unfold gen_name. rewrite rfind_app. reflexivity. Qed.

Lemma len_gen_name x d : len (gen_name x d) = len x + 7.
Proof. unfold gen_name. rewrite len_app. reflexivity. Qed.

Lemma len_stem_part x d :
  Z.to_nat (len x + 2) = String.length (x +:+ String "." (String d "")).
Proof.
  pose proof (len_app x (String "." (String d ""))) as H.
  unfold len in *. simpl in H. lia.
Qed.

(** [suffix] and [stem] of a matched name: the stem ends in the
    generation digit and so holds a ["."]. *)
Lemma suffix_gen_name x d : suffix (gen_name x d) = ".json".
Proof.
  unfold suffix. rewrite rfind_gen_name, len_gen_name.
  pose proof (len_nonneg x). rewrite decide_True by lia.
  rewrite (len_stem_part x d), gen_name_split. apply drop_app_len.
Qed.

Lemma stem_gen_name x d :
  stem (gen_name x d) = x +:+ String "." (String d "").
Proof.
  unfold stem. rewrite rfind_gen_name, len_gen_name.
  pose proof (len_nonneg x). rewrite decide_True by lia.
  rewrite (len_stem_part x d), gen_name_split. apply take_app_len.
Qed.

Lemma find_stem_gen_name x d : 0 ≤ find "." (stem (gen_name x d)) ≤ len x.
Proof.
  rewrite stem_gen_name, find_app. pose proof (find_range "." x).
  simpl. repeat case_decide; lia.
Qed.

Lemma contains_stem_gen_name x d : contains "." (stem (gen_name x d)) = true.
Proof.
  unfold contains. apply bool_decide_eq_true. apply find_stem_gen_name.
Qed.

(** On a matched name the check passes and the key is handed back. *)
Lemma capture_uuid_gen_name (file : Path) x d w :
  name file = gen_name x d →
  capture_uuid file w = (inr (key (name file)), w).
Proof.
  intros E. unfold capture_uuid, key. rewrite E, suffix_gen_name.
  by rewrite contains_stem_gen_name.
Qed.

Lemma capture_uuid_generation (file : Path) w :
  generation (name file) →
  capture_uuid file w = (inr (key (name file)), w).
Proof.
  intros (x & d & _ & E)%generation_inv. eauto using capture_uuid_gen_name.
Qed.

(** The key holds no ["."]. *)
Lemma key_gen_name_dotless x d : find "." (key (gen_name x d)) = -1.
Proof. unfold key. apply find_take, find_stem_gen_name. Qed.

(** When the part before the generation digit has no ["."], it is the
    key. *)
Lemma key_gen_name_plain x d : find "." x = -1 → key (gen_name x d) = x.
Proof.
  intros Hx. unfold key. rewrite stem_gen_name.
  rewrite find_app, Hx. simpl. rewrite Z.add_0_r.
  unfold len. rewrite Nat2Z.id. apply take_app_len.
Qed.

(** Otherwise the key stops at the first ["."] of that part. *)
Lemma key_gen_name_dotted x d :
  0 ≤ find "." x → key (gen_name x d) = take (Z.to_nat (find "." x)) x.
Proof.
  intros Hx. unfold key. rewrite stem_gen_name.
  rewrite find_app, decide_True by done.
  pose proof (find_range "." x) as Hr.
  assert (Z.to_nat (find "." x) < String.length x)%nat as Hn
    by (unfold len in Hr; lia).
  revert Hn. generalize (Z.to_nat (find "." x)) as n. clear.
  induction x as [|a x IH]; intros [|n] Hn; simpl in *; try lia; try done.
  rewrite IH by lia. done.
Qed.

(** A result's name, [key.json], is matched by neither generation
    pattern: a matched name has two ["."] at least. *)
Lemma find_lt_rfind_gen_name x d :
  find "." (gen_name x d) < rfind "." (gen_name x d).
Proof.
  rewrite rfind_gen_name. unfold gen_name. rewrite find_app.
  pose proof (find_range "." x). simpl. repeat case_decide; lia.
Qed.

Lemma output_name_not_gen_name u x d :
  find "." u = -1 → u +:+ ".json" ≠ gen_name x d.
Proof.
  intros Hu E. pose proof (find_lt_rfind_gen_name x d) as H.
  rewrite <- E in H. rewrite find_app, rfind_app, Hu in H.
  simpl in H. lia.
Qed.

Lemma output_name_not_generation u :
  find "." u = -1 → ¬ generation (u +:+ ".json").
Proof.
  intros Hu (x & d & _ & E)%generation_inv.
  by eapply output_name_not_gen_name.
Qed.

End KeyFacts.

(** ** What the nested loops do *)

Module RunFacts.
Import Stats Names Sys Script NameFacts KeyFacts.

(** *** The scan *)

Lemma elem_of_scan w target pat p :
  p ∈ scan w target pat ↔
  is_Some (files w !! p) ∧ below target p ∧ fnmatch (name p) pat.
Proof.
  unfold scan. rewrite list_elem_of_filter, list_elem_of_fmap. split.
  - intros [H ([q x] & -> & Hq)]. apply elem_of_map_to_list in Hq.
    simpl in *. split; [eauto | done].
  - intros [[x Hx] H]. split; [done|]. exists (p, x). split; [done|].
    by apply elem_of_map_to_list.
Qed.

Lemma elem_of_sorted l p : p ∈ sorted l ↔ p ∈ l.
Proof. unfold sorted. by rewrite merge_sort_Permutation. Qed.

Lemma length_sorted l : length (sorted l) = length l.
Proof. unfold sorted. by rewrite merge_sort_Permutation. Qed.

Lemma elem_of_generation_files w target d p :
  p ∈ generation_files w target d ↔
  is_Some (files w !! p) ∧ below target p ∧ fnmatch (name p) (gen_pattern d).
Proof. unfold generation_files. by rewrite elem_of_sorted, elem_of_scan. Qed.

Lemma generation_files_generation w target d :
  d = "1"%char ∨ d = "2"%char →
  Forall (λ p, generation (name p)) (generation_files w target d).
Proof.
  intros Hd. apply Forall_forall. intros p Hp.
  apply elem_of_generation_files in Hp as (_ & _ & Hp).
  destruct Hd as [-> | ->]; [by left | by right].
Qed.

(** *** Sequencing *)

Lemma bind_value {A B} (m : M A) (f : A → M B) w a w' :
  m w = (inr a, w') → (m ≫= f) w = f a w'.
Proof. intros H. unfold mbind, M_bind. by rewrite H. Qed.

Lemma bind_raised {A B} (m : M A) (f : A → M B) w r w' :
  m w = (inl r, w') → (m ≫= f) w = (inl r, w').
Proof. intros H. unfold mbind, M_bind. by rewrite H. Qed.

Lemma for_each_cons {A S} (x : A) l (body : A → S → M S) s :
  for_each (x :: l) body s = body x s ≫= for_each l body.
Proof. reflexivity. Qed.

(** *** One pair *)

Lemma name_joinpath target nm : name (joinpath target nm) = nm.
Proof. unfold name, joinpath. apply last_last. Qed.

Lemma agree_refl w : agree w w.
Proof. by split. Qed.

Lemma agree_with_stdout w0 w lines :
  agree w0 w → agree w0 (with_stdout w lines).
Proof. intros [? ?]. by split. Qed.

Lemma output_path_not_generation target pr :
  generation (name pr.1) → ¬ generation (name (output_path target pr)).
Proof.
  intros (x & d & _ & E)%generation_inv. unfold output_path.
  rewrite name_joinpath, E.
  apply output_name_not_generation, key_gen_name_dotless.
Qed.

Lemma agree_step_pair w0 target w pr :
  generation (name pr.1) → agree w0 w → agree w0 (step_pair w0 target w pr).
Proof.
  intros Hg [Hd Hf]. split; [done|]. intros p Hp. simpl.
  rewrite lookup_insert_ne; [by apply Hf|].
  intros <-. by apply (output_path_not_generation target pr).
Qed.

Lemma agree_foldl_step_pair w0 target prs w :
  Forall (λ pr, generation (name pr.1)) prs → agree w0 w →
  agree w0 (foldl (step_pair w0 target) w prs).
Proof.
  intros H. revert w. induction H as [|pr prs Hpr _ IH]; intros w Hw; [done|].
  simpl. by apply IH, agree_step_pair.
Qed.

Lemma load_agree w0 w file d :
  agree w0 w → generation (name file) → doc_at w0 file = Some d →
  load file w = (inr d, w).
Proof.
  intros [_ Hf] Hg Hd. unfold load, doc_at in *. rewrite (Hf _ Hg).
  by repeat case_match; simplify_eq.
Qed.

(** A matching pair whose two files load: the merged document is
    written. *)
Lemma combine_pair_spec w0 target file1 file2 w :
  agree w0 w → generation (name file1) → generation (name file2) →
  is_Some (doc_at w0 file1) → is_Some (doc_at w0 file2) →
  output_path target (file1, file2) ∉ dirs w0 →
  combine_pair target (key (name file1)) file1 file2 w =
  (inr tt,
   let out := output_of w0 target (file1, file2) in
   mkWorld (<[out.1 := Json out.2]> (files w)) (dirs w) (cwd w)
           (stdout w) (written w ++ [out])).
Proof.
  intros Ha Hg1 Hg2 [d1 H1] [d2 H2] Hout.
  unfold combine_pair, for_each, mbind, M_bind, mret, M_ret.
  rewrite (load_agree w0 _ file1 d1 Ha Hg1 H1).
  rewrite (load_agree w0 _ file2 d2 Ha Hg2 H2).
  unfold dump. destruct Ha as [Hd _].
  rewrite decide_False by (by rewrite Hd).
  unfold output_of. simpl. by rewrite H1, H2.
Qed.

Lemma pairs_with_cons file1 file2 l2 :
  pairs_with file1 (file2 :: l2) =
  (if decide (key (name file1) = key (name file2)) then [(file1, file2)]
   else []) ++ pairs_with file1 l2.
Proof. reflexivity. Qed.

Lemma pairs_cons file1 l1 l2 :
  pairs (file1 :: l1) l2 = pairs_with file1 l2 ++ pairs l1 l2.
Proof. reflexivity. Qed.

Lemma pairs_with_generation file1 l2 :
  generation (name file1) →
  Forall (λ pr, generation (name pr.1)) (pairs_with file1 l2).
Proof.
  intros Hg. induction l2 as [|file2 l2 IH]; [constructor|].
  rewrite pairs_with_cons. case_decide; simpl; [by constructor | done].
Qed.


(** The loop over [json2_files], for one first file. *)
Lemma inner_loop_spec w0 target file1 l2 :
  generation (name file1) →
  Forall (λ p, generation (name p)) l2 →
  readable w0 target (pairs_with file1 l2) →
  ∀ m w, agree w0 w →
  for_each l2 (compare_with target file1 (key (name file1))) m w =
  (inr (m + length (pairs_with file1 l2))%nat,
   foldl (step_pair w0 target) w (pairs_with file1 l2)).
Proof.
  intros Hg1 Hl2. induction Hl2 as [|file2 l2 Hg2 _ IH]; intros Hr m w Ha.
  - simpl. by rewrite Nat.add_0_r.
  - rewrite pairs_with_cons in *. rewrite for_each_cons.
    destruct (decide (key (name file1) = key (name file2))) as [E|E].
    + apply Forall_app in Hr as [Hr1 Hr].
      apply Forall_cons in Hr1 as [(H1 & H2 & Ho) _]. simpl in *.
      erewrite bind_value; last first.
      { unfold compare_with.
        erewrite bind_value by (by apply capture_uuid_generation).
        rewrite decide_True by done.
        erewrite bind_value by reflexivity.
        erewrite bind_value; last first.
        { apply (combine_pair_spec w0); try done;
            by apply agree_with_stdout. }
        reflexivity. }
      rewrite IH; [| done |].
      * simpl. f_equal. f_equal. lia.
      * apply (agree_step_pair w0 target w (file1, file2)); done.
    + erewrite bind_value; last first.
      { unfold compare_with.
        erewrite bind_value by (by apply capture_uuid_generation).
        rewrite decide_False by done. reflexivity. }
      simpl in Hr. rewrite IH by done. done.
Qed.

(** The loop over [json1_files]. *)
Lemma outer_loop_spec w0 target l1 l2 :
  Forall (λ p, generation (name p)) l1 →
  Forall (λ p, generation (name p)) l2 →
  readable w0 target (pairs l1 l2) →
  ∀ m w, agree w0 w →
  for_each l1 (scan_second target l2) m w =
  (inr (m + length (pairs l1 l2))%nat,
   foldl (step_pair w0 target) w (pairs l1 l2)).
Proof.
  intros Hl1 Hl2. induction Hl1 as [|file1 l1 Hg1 _ IH]; intros Hr m w Ha.
  - simpl. by rewrite Nat.add_0_r.
  - rewrite pairs_cons in *. apply Forall_app in Hr as [Hr1 Hr2].
    rewrite for_each_cons.
    erewrite bind_value; last first.
    { unfold scan_second.
      erewrite bind_value by (by apply capture_uuid_generation).
      by apply (inner_loop_spec w0). }
    rewrite IH; [| done |].
    + rewrite foldl_app, length_app. f_equal. f_equal. lia.
    + apply agree_foldl_step_pair; [|done]. by apply pairs_with_generation.
Qed.

(** Lines 109-182, when every matched pair can be read and written. *)
Lemma combine_files_spec w target l1 l2 :
  Forall (λ p, generation (name p)) l1 →
  Forall (λ p, generation (name p)) l2 →
  readable w target (pairs l1 l2) →
  combine_files target l1 l2 w =
  (inr tt,
   with_stdout
     (foldl (step_pair w target)
        (with_stdout w [""; combining_line (length l1) (length l2)])
        (pairs l1 l2))
     [matched_line (length (pairs l1 l2))]).
Proof.
  intros Hl1 Hl2 Hr. unfold combine_files.
  erewrite bind_value by reflexivity.
  erewrite bind_value by reflexivity.
  erewrite bind_value; last first.
  { apply (outer_loop_spec w); try done;
      by apply agree_with_stdout, agree_with_stdout, agree_refl. }
  unfold print, with_stdout. simpl. by rewrite <- app_assoc.
Qed.

(** *** The command line *)

Lemma handle_command_line_found args w :
  exists_at w (locate (cwd w) (arg_path w args)) →
  handle_command_line args w = (inr (locate (cwd w) (arg_path w args)), w).
Proof.
  intros H. unfold handle_command_line, arg_path in *.
  unfold mbind, M_bind, exists_, resolve.
  case_decide; simpl; by rewrite bool_decide_eq_true_2.
Qed.

Lemma handle_command_line_missing args w :
  ¬ exists_at w (locate (cwd w) (arg_path w args)) →
  handle_command_line args w =
  (inl (SystemExit None), with_stdout w [path_not_found (arg_path w args)]).
Proof.
  intros H. unfold handle_command_line, arg_path in *.
  unfold mbind, M_bind, exists_, resolve.
  case_decide; simpl; by rewrite bool_decide_eq_false_2.
Qed.

(** *** The whole run *)

Lemma sorted_nil_iff l : length (sorted l) = 0%nat ↔ l = [].
Proof. rewrite length_sorted. by destruct l. Qed.


Lemma main_spec args w target :
  handle_command_line args w = (inr target, w) →
  scan w target "*.json" ≠ [] →
  readable w target
    (pairs (generation_files w target "1") (generation_files w target "2")) →
  main args w = (inr tt, run_result w target).
Proof.
  intros Hc Hs Hr. unfold main.
  erewrite bind_value by exact Hc.
  erewrite bind_value by reflexivity.
  cbv zeta. rewrite decide_False by (by rewrite sorted_nil_iff).
  erewrite bind_value by reflexivity.
  erewrite bind_value by reflexivity.
  apply (combine_files_spec w target (generation_files w target "1")
           (generation_files w target "2"));
    [apply generation_files_generation; by left
    |apply generation_files_generation; by right
    |done].
Qed.

(** *** What the handled pairs leave behind *)

Lemma foldl_step_pair_files w0 target prs w :
  files (foldl (step_pair w0 target) w prs) =
  foldl (λ fs out, <[out.1 := Json out.2]> fs) (files w)
        (output_of w0 target <$> prs).
Proof.
  revert w. induction prs as [|pr prs IH]; intros w; simpl; [done|].
  by rewrite IH.
Qed.

Lemma foldl_step_pair_written w0 target prs w :
  written (foldl (step_pair w0 target) w prs) =
  written w ++ (output_of w0 target <$> prs).
Proof.
  revert w. induction prs as [|pr prs IH]; intros w; simpl.
  - by rewrite app_nil_r.
  - rewrite IH. simpl. by rewrite <- app_assoc.
Qed.

Lemma foldl_step_pair_stdout w0 target prs w :
  stdout (foldl (step_pair w0 target) w prs) =
  stdout w ++ (match_line <$> prs).
Proof.
  revert w. induction prs as [|pr prs IH]; intros w; simpl.
  - by rewrite app_nil_r.
  - rewrite IH. simpl. by rewrite <- app_assoc.
Qed.

Lemma elem_of_pairs_with file1 l2 pr :
  pr ∈ pairs_with file1 l2 ↔
  pr.1 = file1 ∧ pr.2 ∈ l2 ∧ key (name pr.1) = key (name pr.2).
Proof.
  unfold pairs_with. rewrite list_elem_of_bind. split.
  - intros (file2 & H & H2). case_decide; [|by apply elem_of_nil in H].
    apply list_elem_of_singleton in H as ->. done.
  - intros (<- & H2 & E). exists pr.2. split; [|done].
    rewrite decide_True by done. destruct pr. by apply list_elem_of_singleton.
Qed.

(** A pair is handled exactly when both files were found and their keys
    are the same text. *)
Lemma elem_of_pairs l1 l2 pr :
  pr ∈ pairs l1 l2 ↔
  pr.1 ∈ l1 ∧ pr.2 ∈ l2 ∧ key (name pr.1) = key (name pr.2).
Proof.
  unfold pairs. rewrite list_elem_of_bind. split.
  - intros (file1 & H & H1). apply elem_of_pairs_with in H as (<- & ? & ?).
    done.
  - intros (H1 & H2 & E). exists pr.1. split; [|done].
    by apply elem_of_pairs_with.
Qed.

(** *** The naming error cannot be the end of a run *)

Lemma combine_pair_no_name_abort target u file1 file2 w :
  ¬ name_abort (combine_pair target u file1 file2 w).
Proof.
  unfold combine_pair, for_each, mbind, M_bind, load, dump, mret, M_ret.
  intros [nm H]. repeat case_match; simplify_eq; simpl in *; discriminate.
Qed.

Lemma compare_with_no_name_abort target file1 u file2 m w :
  generation (name file2) →
  ¬ name_abort (compare_with target file1 u file2 m w).
Proof.
  intros Hg. unfold compare_with.
  erewrite bind_value by (by apply capture_uuid_generation).
  case_decide; [|intros [nm E]; discriminate].
  erewrite bind_value by reflexivity.
  pose proof (combine_pair_no_name_abort target u file1 file2
    (with_stdout w [u +:+ " Match found"])) as Hc.
  unfold mbind, M_bind.
  destruct (combine_pair target u file1 file2 _) as [[r|[]] w'].
  - intros [nm E]. apply Hc. exists nm. simpl in *. by simplify_eq.
  - intros [nm E]. discriminate.
Qed.

Lemma for_each_no_name_abort {A S} (l : list A) (body : A → S → M S) :
  (∀ x, x ∈ l → ∀ s w, ¬ name_abort (body x s w)) →
  ∀ s w, ¬ name_abort (for_each l body s w).
Proof.
  induction l as [|x l IH]; intros Hb s w.
  - intros [nm H]. discriminate.
  - rewrite for_each_cons. unfold mbind, M_bind.
    pose proof (Hb x (list_elem_of_here _ _) s w) as Hx.
    destruct (body x s w) as [[r|s'] w'];
      [intros [nm E]; apply Hx; exists nm; simpl in *; by simplify_eq|].
    apply IH. intros y Hy. apply Hb. by apply list_elem_of_further.
Qed.

Lemma scan_second_no_name_abort target l2 file1 m w :
  generation (name file1) → Forall (λ p, generation (name p)) l2 →
  ¬ name_abort (scan_second target l2 file1 m w).
Proof.
  intros Hg Hl2. unfold scan_second.
  erewrite bind_value by (by apply capture_uuid_generation).
  apply for_each_no_name_abort. intros file2 H2 s w'.
  apply compare_with_no_name_abort.
  by apply (proj1 (Forall_forall _ _) Hl2).
Qed.

Lemma combine_files_no_name_abort target l1 l2 w :
  Forall (λ p, generation (name p)) l1 →
  Forall (λ p, generation (name p)) l2 →
  ¬ name_abort (combine_files target l1 l2 w).
Proof.
  intros Hl1 Hl2. unfold combine_files.
  erewrite bind_value by reflexivity.
  erewrite bind_value by reflexivity.
  unfold mbind, M_bind.
  match goal with |- context [for_each l1 ?b ?s ?w0] =>
    pose proof (for_each_no_name_abort l1 b
      (λ x Hx s' w', scan_second_no_name_abort target l2 x s' w'
         (proj1 (Forall_forall _ _) Hl1 x Hx) Hl2) s w0) as Hloop;
    destruct (for_each l1 b s w0) as [[r|n] w']
  end; [intros [nm E]; apply Hloop; exists nm; simpl in *; by simplify_eq|].
  intros [nm H]. discriminate.
Qed.

Lemma handle_command_line_cases args w :
  handle_command_line args w =
    (inr (locate (cwd w) (arg_path w args)), w) ∨
  handle_command_line args w =
    (inl (SystemExit None), with_stdout w [path_not_found (arg_path w args)]).
Proof.
  destruct (decide (exists_at w (locate (cwd w) (arg_path w args)))).
  - left. by apply handle_command_line_found.
  - right. by apply handle_command_line_missing.
Qed.

Lemma main_no_name_abort args w : ¬ name_abort (main args w).
Proof.
  unfold main.
  destruct (handle_command_line_cases args w) as [H|H].
  - erewrite bind_value by exact H.
    erewrite bind_value by reflexivity. cbv zeta.
    case_decide.
    + intros [nm E]. unfold sys_exit, raise, no_json_files, unexpected_name
        in E. simpl in E. discriminate.
    + erewrite bind_value by reflexivity.
      erewrite bind_value by reflexivity.
      apply (combine_files_no_name_abort _
               (generation_files w _ "1") (generation_files w _ "2"));
        apply generation_files_generation; [by left | by right].
  - erewrite bind_raised by exact H. intros [nm E]. discriminate.
Qed.

(** *** Auxiliary facts for the statements below *)




Lemma str_app_inj_r x y s : x +:+ s = y +:+ s → x = y.
Proof.
  intros E.
  assert (String.length x = String.length y) as Hl.
  { pose proof (f_equal len E) as H. rewrite !len_app in H.
    unfold len in H. lia. }
  rewrite <- (take_app_len x s), E, Hl. apply take_app_len.
Qed.


Lemma foldl_insert_lookup_ne (outs : list (Path * StatsDocument))
    (fs : gmap Path FileData) (p : Path) :
  (∀ out, out ∈ outs → out.1 ≠ p) →
  foldl (λ fs out, <[out.1 := Json out.2]> fs) fs outs !! p = fs !! p.
Proof.
  revert fs. induction outs as [|out outs IH]; intros fs H; [done|].
  simpl. rewrite IH.
  - apply lookup_insert_ne, H, list_elem_of_here.
  - intros o Ho. apply H. by apply list_elem_of_further.
Qed.

Lemma foldl_insert_is_Some (outs : list (Path * StatsDocument))
    (fs : gmap Path FileData) (p : Path) :
  is_Some (fs !! p) →
  is_Some (foldl (λ fs out, <[out.1 := Json out.2]> fs) fs outs !! p).
Proof.
  revert fs. induction outs as [|out outs IH]; intros fs H; [done|].
  simpl. apply IH. rewrite lookup_insert. case_decide; eauto.
Qed.

Lemma run_result_files w target :
  files (run_result w target) =
  foldl (λ fs out, <[out.1 := Json out.2]> fs) (files w)
    (output_of w target <$>
       pairs (generation_files w target "1") (generation_files w target "2")).
Proof. unfold run_result. simpl. by rewrite foldl_step_pair_files. Qed.

Lemma run_result_written w target :
  written (run_result w target) =
  written w ++
    (output_of w target <$>
       pairs (generation_files w target "1") (generation_files w target "2")).
Proof. unfold run_result. simpl. by rewrite foldl_step_pair_written. Qed.

Lemma run_result_stdout w target :
  let json1_files := generation_files w target "1" in
  let json2_files := generation_files w target "2" in
  let prs := pairs json1_files json2_files in
  stdout (run_result w target) =
  stdout w ++
    [""; combining_line (length json1_files) (length json2_files)] ++
    (match_line <$> prs) ++ [matched_line (length prs)].
Proof.
  unfold run_result. simpl. rewrite foldl_step_pair_stdout. simpl.
  by rewrite <- !app_assoc.
Qed.


End RunFacts.

(** ** The run: errors, pairing, effects on the file tree *)

Module RunClaims.
Import Stats Names Sys Script NameFacts KeyFacts RunFacts.



Lemma generation_files_name w target d file :
  d = "1"%char ∨ d = "2"%char →
  file ∈ generation_files w target d → ∃ x, name file = gen_name x d.
Proof.
  intros Hd (_ & _ & H)%elem_of_generation_files.
  apply gen_pattern_match in H; [done|]. by destruct Hd as [-> | ->].
Qed.




(** C5, at the script's [exit()]. When the path given does not exist the
    run ends at once: the message is printed on standard output, no file
    is read or written, and the interpreter's exit status is 0. *)
Theorem missing_path_exit_status args w :
  ¬ exists_at w (locate (cwd w) (arg_path w args)) →
  main args w =
    (inl (SystemExit None),
     with_stdout w [path_not_found (arg_path w args)]) ∧
  exit_status (main args w).1 = 0.
Proof.
  intros H.
  assert (main args w =
    (inl (SystemExit None),
     with_stdout w [path_not_found (arg_path w args)])) as E.
  { unfold main. erewrite bind_raised; [done|].
    by apply handle_command_line_missing. }
  by rewrite E.
Qed.

Lemma missing_path_exit_status_witness :
  main ["/srv/nowhere"] Samples.no_json =
    (inl (SystemExit None),
     with_stdout Samples.no_json
       ["Specified path not found. /srv/nowhere is not a valid filesystem path."]) ∧
  exit_status (main ["/srv/nowhere"] Samples.no_json).1 = 0.
Proof.
  apply (missing_path_exit_status ["/srv/nowhere"] Samples.no_json).
  apply (bool_decide_unpack _). vm_compute. exact I.
Defined.







(** C10. The naming error is out of reach. Every file the scans for
    ["*.1.json"] and ["*.2.json"] find has a stem ending in [.1] or [.2],
    hence holding the ["."] the check looks for; the check hands back a
    key for it; and no run of [main] ends on the unexpected-name error. *)
Theorem unexpected_name_unreachable args w :
  (∀ target d file, d = "1"%char ∨ d = "2"%char →
     file ∈ generation_files w target d →
     (∃ x, stem (name file) = x +:+ String "." (String d "")) ∧
     contains "." (stem (name file)) = true ∧
     capture_uuid file w = (inr (key (name file)), w)) ∧
  ¬ name_abort (main args w).
Proof.
  split; [|apply main_no_name_abort].
  intros target d file Hd Hf.
  destruct (generation_files_name w target d file Hd Hf) as [x E].
  rewrite E. split; [|split].
  - exists x. apply stem_gen_name.
  - apply contains_stem_gen_name.
  - rewrite <- E. by eapply capture_uuid_gen_name.
Qed.

End RunClaims.

(** ** More on the merge: bounds, keys, neutral element, order of turns *)

Module StatsMore.
Import Stats StatsFacts.

Lemma clamp_le x : clamp x ≤ CEILING.
Proof. rewrite clamp_min. lia. Qed.

Lemma lookup2_Some d cat k v :
  lookup2 d cat k = Some v ↔
  ∃ items, stats d !! cat = Some items ∧ items !! k = Some v.
Proof.
  unfold lookup2. destruct (stats d !! cat) as [items|]; simpl.
  - split; [eauto | by intros (? & [= <-] & ?)].
  - split; [done | by intros (? & ? & ?)].
Qed.

(** What one turn of the loop over the matched files leaves under a
    category. *)
Lemma absorb_stats_lookup data out c :
  stats (absorb data out) !! c =
  match stats data !! c with
  | Some items => Some (map_fold add_item (default ∅ (stats out !! c)) items)
  | None => stats out !! c
  end.
Proof. unfold absorb. simpl. apply add_categories_lookup. Qed.

Lemma absorb_lookup2 data out cat k :
  lookup2 (absorb data out) cat k =
  match lookup2 data cat k with
  | Some v => Some (clamp (default 0 (lookup2 out cat k) + v))
  | None => lookup2 out cat k
  end.
Proof.
  unfold lookup2. rewrite absorb_stats_lookup.
  destruct (stats data !! cat) as [items|]; simpl; [|done].
  rewrite add_items_lookup.
  destruct (items !! k); destruct (stats out !! cat); simpl;
    rewrite ?lookup_empty; done.
Qed.

Lemma add_items_valid_empty (items : gmap string Z) :
  map_Forall (λ _ v, 0 ≤ v ≤ CEILING) items →
  map_fold add_item ∅ items = items.
Proof.
  intros H. apply map_eq. intros k. rewrite add_items_lookup, lookup_empty.
  destruct (items !! k) as [v|] eqn:E; [|done].
  apply (map_Forall_lookup_1 _ _ _ _ H) in E.
  simpl. rewrite clamp_min. f_equal. lia.
Qed.

(** X1. Whatever the two documents hold, negative or oversized values
    included, no value of the merged document is above 2,147,483,647. *)
Theorem merge_never_above_ceiling A B :
  map_Forall (λ _ items, map_Forall (λ _ v, v ≤ CEILING) items)
             (stats (merge A B)).
Proof.
  intros cat items Hc k v Hk.
  assert (lookup2 (merge A B) cat k = Some v) as H
    by (apply lookup2_Some; eauto).
  rewrite merge_lookup2 in H.
  destruct (lookup2 A cat k), (lookup2 B cat k); simplify_eq;
    apply clamp_le.
Qed.

(** X2. The merge of two valid documents is a valid document: its
    version marker is not negative and every value lies between 0 and the
    ceiling. *)
Theorem merge_valid A B : valid A → valid B → valid (merge A B).
Proof.
  intros HA HB. split.
  - rewrite merge_DataVersion. lia.
  - intros cat items Hc k v Hk.
    assert (lookup2 (merge A B) cat k = Some v) as H
      by (apply lookup2_Some; eauto).
    rewrite merge_lookup2 in H.
    pose proof (valid_lookup2 A cat k) as Ha.
    pose proof (valid_lookup2 B cat k) as Hb.
    destruct (lookup2 A cat k) as [a|], (lookup2 B cat k) as [b|];
      simplify_eq; rewrite ?clamp_min.
    + specialize (Ha a HA eq_refl). specialize (Hb b HB eq_refl). lia.
    + specialize (Ha a HA eq_refl). lia.
    + specialize (Hb b HB eq_refl). lia.
Qed.

Lemma merge_valid_witness : valid (merge Samples.old_doc Samples.new_doc).
Proof.
  apply merge_valid; apply (bool_decide_unpack _); vm_compute; exact I.
Defined.

(** X3. The merged document has exactly the categories of the two
    documents together, an empty category included, and under each
    category exactly the item keys of the two together: no key is lost
    and none is invented. *)
Theorem merge_keys A B :
  dom (stats (merge A B)) = dom (stats A) ∪ dom (stats B) ∧
  ∀ cat k, present (merge A B) cat k ↔ present A cat k ∨ present B cat k.
Proof.
  split.
  - apply set_eq. intros c.
    rewrite elem_of_union, !elem_of_dom, merge_stats_lookup.
    destruct (stats A !! c), (stats B !! c); split; eauto;
      intros [[? ?]|[? ?]]; done.
  - intros cat k. unfold present. rewrite merge_lookup2.
    destruct (lookup2 A cat k), (lookup2 B cat k); split; eauto;
      intros [[? ?]|[? ?]]; done.
Qed.

(** X4. Once a value of the accumulator is at the ceiling it stays
    there: absorbing a further valid document leaves it at
    2,147,483,647. *)
Theorem ceiling_is_kept data out cat k :
  valid data → lookup2 out cat k = Some CEILING →
  lookup2 (absorb data out) cat k = Some CEILING.
Proof.
  intros Hd Ho. rewrite absorb_lookup2, Ho.
  pose proof (valid_lookup2 data cat k) as Hv.
  destruct (lookup2 data cat k) as [v|]; [|done].
  specialize (Hv v Hd eq_refl). simpl. rewrite clamp_min. f_equal. lia.
Qed.

Lemma ceiling_is_kept_witness :
  lookup2 (absorb Samples.old_doc (merge Samples.old_doc Samples.new_doc))
          "custom" "jump" = Some CEILING.
Proof.
  apply ceiling_is_kept.
  - apply (bool_decide_unpack _). vm_compute. exact I.
  - vm_compute. reflexivity.
Defined.

(** X5. For any two documents the merged version marker is the largest
    of 0 and the two markers: a negative marker never reaches the
    output. *)
Theorem merge_DataVersion_any A B :
  DataVersion (merge A B) = Z.max 0 (Z.max (DataVersion A) (DataVersion B)) ∧
  0 ≤ DataVersion (merge A B).
Proof. rewrite merge_DataVersion. lia. Qed.

(** X6. A valid document merged with the empty document
    [{"stats": {}, "DataVersion": 0}], on either side, is the document
    itself. *)
Theorem merge_empty A :
  valid A → merge A empty_output = A ∧ merge empty_output A = A.
Proof.
  intros [Hv Hl]. split; apply doc_eq.
  - rewrite merge_DataVersion. simpl. lia.
  - apply map_eq. intros c. rewrite merge_stats_lookup. simpl.
    rewrite lookup_empty.
    destruct (stats A !! c) as [a|] eqn:E; [|done].
    f_equal. apply add_items_valid_empty.
    exact (map_Forall_lookup_1 _ _ _ _ Hl E).
  - rewrite merge_DataVersion. simpl. lia.
  - apply map_eq. intros c. rewrite merge_stats_lookup. simpl.
    rewrite lookup_empty.
    destruct (stats A !! c) as [a|] eqn:E; [|done].
    f_equal. apply add_items_valid_empty.
    exact (map_Forall_lookup_1 _ _ _ _ Hl E).
Qed.

Lemma merge_empty_witness :
  merge Samples.new_doc empty_output = Samples.new_doc ∧
  merge empty_output Samples.new_doc = Samples.new_doc.
Proof.
  apply merge_empty. apply (bool_decide_unpack _). vm_compute. exact I.
Defined.

(** X7. Two turns of the loop over the matched files can be swapped:
    with valid documents and a valid accumulator, absorbing [A] then [B]
    gives the accumulator that absorbing [B] then [A] gives. *)
Theorem absorb_comm A B out :
  valid A → valid B → valid out →
  absorb A (absorb B out) = absorb B (absorb A out).
Proof.
  intros HA HB Ho. apply doc_eq.
  - unfold absorb. simpl. repeat case_decide; lia.
  - apply map_eq. intros c. apply option_eq. intros items.
    rewrite !absorb_stats_lookup.
    destruct HA as [_ HA], HB as [_ HB], Ho as [_ Ho].
    destruct (stats A !! c) as [a|] eqn:Ea, (stats B !! c) as [b|] eqn:Eb;
      simpl; try done.
    assert (map_fold add_item (map_fold add_item (default ∅ (stats out !! c)) b) a
            = map_fold add_item (map_fold add_item (default ∅ (stats out !! c)) a) b)
      as ->; [|done].
    apply map_eq. intros k.
    pose proof (map_Forall_lookup_1 _ _ _ _ HA Ea) as Fa.
    pose proof (map_Forall_lookup_1 _ _ _ _ HB Eb) as Fb.
    assert (0 ≤ default 0 (default ∅ (stats out !! c) !! k)) as Hk.
    { destruct (stats out !! c) as [o|] eqn:Eo; simpl;
        [|by rewrite lookup_empty].
      destruct (o !! k) as [x|] eqn:Ex; simpl; [|done].
      pose proof (map_Forall_lookup_1 _ _ _ _
                    (map_Forall_lookup_1 _ _ _ _ Ho Eo) Ex). simpl in *. lia. }
    rewrite !add_items_lookup.
    destruct (a !! k) as [x|] eqn:Ex, (b !! k) as [y|] eqn:Ey; simpl;
      try done.
    apply (map_Forall_lookup_1 _ _ _ _ Fa) in Ex.
    apply (map_Forall_lookup_1 _ _ _ _ Fb) in Ey.
    f_equal. rewrite !clamp_min. lia.
Qed.

Lemma absorb_comm_witness :
  absorb Samples.old_doc (absorb Samples.new_doc empty_output) =
  absorb Samples.new_doc (absorb Samples.old_doc empty_output).
Proof.
  apply absorb_comm; apply (bool_decide_unpack _); vm_compute; exact I.
Defined.

End StatsMore.

(** ** More on file names: every outcome of the name check, and which
    names are paired *)

Module NamesMore.
Import Names Sys Script NameFacts KeyFacts.

Lemma find_take_lt c s n :
  find c (take n s) =
  if decide (0 ≤ find c s < Z.of_nat n) then find c s else -1.
Proof.
  revert n. induction s as [|a s IH]; intros n.
  - destruct n; simpl; try case_decide; done.
  - destruct n as [|n].
    + rewrite decide_False by lia. done.
    + simpl. rewrite IH. pose proof (find_range c s).
      repeat case_decide; lia.
Qed.

Lemma drop_rfind c s :
  0 ≤ rfind c s → ∃ r, drop (Z.to_nat (rfind c s)) s = String c r.
Proof.
  induction s as [|a s IH]; simpl; [lia|].
  pose proof (rfind_range c s).
  destruct (decide (0 ≤ rfind c s)) as [Hr|Hr].
  - intros _. destruct (IH Hr) as [r E]. exists r.
    replace (Z.to_nat (rfind c s + 1)) with (S (Z.to_nat (rfind c s))) by lia.
    done.
  - destruct (decide (a = c)) as [->|]; [|lia]. intros _. by exists s.
Qed.

Lemma find_upto_rfind c s : 0 ≤ rfind c s → 0 ≤ find c s ≤ rfind c s.
Proof.
  induction s as [|a s IH]; simpl; [lia|].
  pose proof (rfind_range c s). pose proof (find_range c s).
  repeat case_decide; lia.
Qed.

(** X8. The three ways the name check of lines 117-124 can go, for any
    file name whatever.  It raises [IndexError] when the name has no
    suffix (no ["."] after the first character and before the last); it
    ends the run on the naming error when the only ["."] of the name is
    the one of its suffix; it hands back the text before the first ["."]
    when there is a ["."] before the suffix. *)
Theorem capture_uuid_outcomes (file : Path) (w : World) :
  let nm := name file in
  let has_suffix := 0 < rfind "." nm < len nm - 1 in
  (capture_uuid file w = (inl (Uncaught IndexError), w) ↔ ¬ has_suffix) ∧
  (capture_uuid file w = (inl (SystemExit (Some (unexpected_name nm))), w) ↔
     has_suffix ∧ find "." nm = rfind "." nm) ∧
  (capture_uuid file w = (inr (key nm), w) ↔
     has_suffix ∧ find "." nm < rfind "." nm).
Proof.
  intros nm has_suffix. unfold capture_uuid, key, suffix, stem.
  fold nm. subst has_suffix.
  destruct (decide (0 < rfind "." nm < len nm - 1)) as [Hs|Hs].
  - destruct (drop_rfind "." nm) as [r ->]; [lia|].
    unfold contains. rewrite find_take_lt.
    rewrite Z2Nat.id by lia.
    pose proof (find_upto_rfind "." nm) as Hf.
    destruct (decide (0 ≤ find "." nm < rfind "." nm)) as [Hlt|Hlt].
    + rewrite bool_decide_eq_true_2 by lia. simpl.
      repeat split; try done; try lia; intros [_ ?]; lia.
    + rewrite bool_decide_eq_false_2 by lia. simpl.
      repeat split; try done; try lia; intros [_ ?]; lia.
  - repeat split; try done; intros [? ?]; done.
Qed.

(** X9. The two generations of one name always carry the same key,
    whatever comes before the generation digit: [x.1.json] is paired
    with [x.2.json]. *)
Theorem generations_share_key x d e : key (gen_name x d) = key (gen_name x e).
Proof.
  destruct (decide (0 ≤ find "." x)) as [H|H].
  - by rewrite !key_gen_name_dotted.
  - pose proof (find_range "." x).
    rewrite !key_gen_name_plain by lia. done.
Qed.

(** X10. For names whose part before the generation digit has no ["."],
    as a UUID has none, two files carry the same key exactly when those
    parts are the same text, letter case included. *)
Theorem plain_names_pair_iff_equal x y d e :
  find "." x = -1 → find "." y = -1 →
  key (gen_name x d) = key (gen_name y e) ↔ x = y.
Proof.
  intros Hx Hy. rewrite !key_gen_name_plain by done. done.
Qed.

Lemma plain_names_pair_iff_equal_witness :
  key (gen_name "069a79f4-44e9" "1") = key (gen_name "069A79F4-44E9" "2") ↔
  "069a79f4-44e9" = "069A79F4-44E9".
Proof. apply plain_names_pair_iff_equal; reflexivity. Defined.

End NamesMore.

(** ** Every run, the failed ones included *)

Module FrameFacts.
Import Stats Names Sys Script Frame NameFacts KeyFacts RunFacts.

Lemma grown_refl w target : grown w target w.
Proof.
  split; [done|]. split; [done|]. exists [], [].
  split; [constructor|]. split; [done|]. by rewrite !app_nil_r.
Qed.

Lemma grown_with_stdout w0 target w ls :
  grown w0 target w → grown w0 target (with_stdout w ls).
Proof.
  intros (Hd & Hc & log & lines & Hall & Hf & Hw & Hs).
  repeat split; try done. exists log, (lines ++ ls).
  repeat split; try done. simpl. by rewrite Hs, app_assoc.
Qed.

Lemma grown_dump w0 target w p doc :
  grown w0 target w → result_path target p →
  grown w0 target
    (mkWorld (<[p := Json doc]> (files w)) (dirs w) (cwd w) (stdout w)
             (written w ++ [(p, doc)])).
Proof.
  intros (Hd & Hc & log & lines & Hall & Hf & Hw & Hs) Hp.
  repeat split; try done. exists (log ++ [(p, doc)]), lines.
  repeat split; simpl; try done.
  - apply Forall_app. split; [done|]. by repeat constructor.
  - unfold apply_writes in *. by rewrite foldl_app, <- Hf.
  - by rewrite Hw, app_assoc.
Qed.

Lemma result_path_not_generation target p :
  result_path target p → ¬ generation (name p).
Proof.
  intros (k & Hk & ->). rewrite name_joinpath.
  by apply output_name_not_generation.
Qed.

Lemma apply_writes_lookup_ne (log : list (Path * StatsDocument))
    (fs : gmap Path FileData) (p : Path) :
  Forall (λ out : Path * StatsDocument, out.1 ≠ p) log →
  apply_writes fs log !! p = fs !! p.
Proof.
  intros H. apply foldl_insert_lookup_ne. by apply Forall_forall.
Qed.

Lemma apply_writes_changed (log : list (Path * StatsDocument))
    (fs : gmap Path FileData) (p : Path) :
  apply_writes fs log !! p ≠ fs !! p → ∃ out, out ∈ log ∧ out.1 = p.
Proof.
  revert fs. induction log as [|out log IH]; intros fs H; [done|].
  destruct (decide (out.1 = p)) as [E|E].
  - exists out. split; [apply list_elem_of_here | done].
  - destruct (IH (<[out.1 := Json out.2]> fs)) as (o & Ho & Eo).
    + unfold apply_writes in *. simpl in H.
      by rewrite lookup_insert_ne.
    + exists o. split; [by apply list_elem_of_further | done].
Qed.

Lemma grown_generation_kept w0 target w p :
  grown w0 target w → generation (name p) → files w !! p = files w0 !! p.
Proof.
  intros (_ & _ & log & _ & Hall & -> & _) Hg.
  apply apply_writes_lookup_ne.
  eapply Forall_impl; [exact Hall|]. intros out Hout <-.
  by apply (result_path_not_generation target out.1).
Qed.

Lemma grown_is_Some w0 target w p :
  grown w0 target w → is_Some (files w0 !! p) → is_Some (files w !! p).
Proof.
  intros (_ & _ & log & _ & _ & -> & _). apply foldl_insert_is_Some.
Qed.

Lemma key_result_path target file :
  generation (name file) →
  result_path target (joinpath target (key (name file) +:+ ".json")).
Proof.
  intros (x & d & _ & ->)%generation_inv. eexists. split; [|done].
  apply key_gen_name_dotless.
Qed.

Lemma fine_value {A} w0 target (a : A) w :
  grown w0 target w → fine w0 target (inr a, w).
Proof. intros H. split; [done|]. intros e [=]. Qed.

Lemma combine_pair_fine w0 target file1 file2 w :
  grown w0 target w → generation (name file1) →
  is_Some (files w0 !! file1) → is_Some (files w0 !! file2) →
  fine w0 target (combine_pair target (key (name file1)) file1 file2 w).
Proof.
  intros Hg Hn H1 H2.
  apply (grown_is_Some w0 target w) in H1 as [x1 E1]; [|done].
  apply (grown_is_Some w0 target w) in H2 as [x2 E2]; [|done].
  unfold combine_pair, for_each, mbind, M_bind, load, dump, mret, M_ret.
  rewrite E1. destruct x1 as [d1|]; simpl.
  - rewrite E2. destruct x2 as [d2|]; simpl.
    + case_decide.
      * split; [done|]. intros e [= <-]. by right.
      * apply fine_value, grown_dump; [done|]. by apply key_result_path.
    + split; [done|]. intros e [= <-]. by left.
  - split; [done|]. intros e [= <-]. by left.
Qed.

Lemma fine_bind {A B} w0 target (m : M A) (f : A → M B) w :
  fine w0 target (m w) →
  (∀ a w', grown w0 target w' → fine w0 target (f a w')) →
  fine w0 target ((m ≫= f) w).
Proof.
  intros [Hg He] Hf. unfold mbind, M_bind.
  destruct (m w) as [[r|a] w']; simpl in *.
  - split; [done|]. intros e [= <-]. by apply He.
  - by apply Hf.
Qed.

Lemma compare_with_fine w0 target file1 file2 m w :
  grown w0 target w →
  generation (name file1) → generation (name file2) →
  is_Some (files w0 !! file1) → is_Some (files w0 !! file2) →
  fine w0 target (compare_with target file1 (key (name file1)) file2 m w).
Proof.
  intros Hg Hn1 Hn2 H1 H2. unfold compare_with.
  erewrite bind_value by (by apply capture_uuid_generation).
  case_decide; [|by apply fine_value].
  apply fine_bind; [by apply fine_value, grown_with_stdout|].
  intros _ w1 Hw1.
  apply fine_bind; [by apply combine_pair_fine|].
  intros _ w2 Hw2. by apply fine_value.
Qed.

Lemma for_each_fine {A S} w0 target (l : list A) (body : A → S → M S) :
  (∀ x, x ∈ l → ∀ s w, grown w0 target w → fine w0 target (body x s w)) →
  ∀ s w, grown w0 target w → fine w0 target (for_each l body s w).
Proof.
  induction l as [|x l IH]; intros Hb s w Hg.
  - by apply fine_value.
  - rewrite for_each_cons. apply fine_bind.
    + apply Hb; [apply list_elem_of_here | done].
    + intros s' w' Hg'. apply IH; [|done].
      intros y Hy. apply Hb. by apply list_elem_of_further.
Qed.

Lemma scan_second_fine w0 target l2 file1 m w :
  grown w0 target w → generation (name file1) →
  is_Some (files w0 !! file1) → found_generation w0 l2 →
  fine w0 target (scan_second target l2 file1 m w).
Proof.
  intros Hg Hn H1 Hl2. unfold scan_second.
  erewrite bind_value by (by apply capture_uuid_generation).
  apply for_each_fine; [|done]. intros file2 H2 s w' Hg'.
  destruct (proj1 (Forall_forall _ _) Hl2 _ H2).
  by apply compare_with_fine.
Qed.

Lemma combine_files_fine w0 target l1 l2 w :
  grown w0 target w → found_generation w0 l1 → found_generation w0 l2 →
  fine w0 target (combine_files target l1 l2 w).
Proof.
  intros Hg Hl1 Hl2. unfold combine_files.
  apply fine_bind; [by apply fine_value, grown_with_stdout|].
  intros _ w1 Hw1.
  apply fine_bind; [by apply fine_value, grown_with_stdout|].
  intros _ w2 Hw2.
  apply fine_bind.
  - apply for_each_fine; [|done]. intros file1 H1 s w' Hg'.
    destruct (proj1 (Forall_forall _ _) Hl1 _ H1).
    by apply scan_second_fine.
  - intros n w3 Hw3. by apply fine_value, grown_with_stdout.
Qed.

Lemma generation_files_found w target d :
  d = "1"%char ∨ d = "2"%char →
  found_generation w (generation_files w target d).
Proof.
  intros Hd. apply Forall_forall. intros p Hp. split.
  - by apply (proj1 (Forall_forall _ _)
                (generation_files_generation w target d Hd)).
  - by apply elem_of_generation_files in Hp as (? & _).
Qed.

(** Where any run ends and what it leaves. *)
Lemma main_fine args w :
  let target := locate (cwd w) (arg_path w args) in
  grown w target (main args w).2 ∧
  ((main args w).1 = inr tt ∨
   (main args w).1 = inl (SystemExit None) ∨
   (main args w).1 = inl (SystemExit (Some (no_json_files target))) ∨
   ∃ e, (main args w).1 = inl e ∧ load_or_write_error e).
Proof.
  intros target. unfold main.
  destruct (handle_command_line_cases args w) as [H|H].
  - erewrite bind_value by exact H.
    erewrite bind_value by reflexivity. cbv zeta.
    case_decide.
    + split; [apply grown_refl|]. right. right. by left.
    + erewrite bind_value by reflexivity.
      erewrite bind_value by reflexivity.
      destruct (combine_files_fine w target
                  (generation_files w target "1")
                  (generation_files w target "2") w) as [Hg He].
      * apply grown_refl.
      * apply generation_files_found. by left.
      * apply generation_files_found. by right.
      * set (r := combine_files target (generation_files w target "1")
                    (generation_files w target "2") w) in *.
        change (grown w target r.2 ∧
                (r.1 = inr tt ∨ r.1 = inl (SystemExit None) ∨
                 r.1 = inl (SystemExit (Some (no_json_files target))) ∨
                 ∃ e, r.1 = inl e ∧ load_or_write_error e)).
        split; [done|]. destruct r as [[e|[]] w']; simpl in *.
        -- right. right. right. exists e. split; [done|]. by apply He.
        -- by left.
  - erewrite bind_raised by exact H. simpl.
    split; [apply grown_with_stdout, grown_refl|]. right. by left.
Qed.

End FrameFacts.

(** ** Every run: what is kept, how it can end, when it succeeds *)

Module RunMore.
Import Stats Names Sys Script Frame NameFacts KeyFacts RunFacts FrameFacts.

(** X11. However a run ends, the naming error and an exception included,
    it leaves every file named [*.1.json] or [*.2.json] as it was,
    removes no file, and changes neither the directories nor the working
    directory. *)
Theorem every_run_keeps_sources args w :
  dirs (main args w).2 = dirs w ∧
  cwd (main args w).2 = cwd w ∧
  (∀ p, generation (name p) →
        files (main args w).2 !! p = files w !! p) ∧
  (∀ p, is_Some (files w !! p) → is_Some (files (main args w).2 !! p)).
Proof.
  destruct (main_fine args w) as [Hg _].
  split; [apply Hg|]. split; [apply Hg|]. split.
  - intros p Hp. by eapply grown_generation_kept.
  - intros p Hp. by eapply grown_is_Some.
Qed.


(** X13. However a run ends, every document it has written went to a
    path directly in the root named [k.json] with no ["."] in [k], never
    into a subdirectory; the tree it leaves is the initial tree with
    these writes applied in turn, so a path whose content changed is
    such a path. *)
Theorem every_write_goes_to_root args w :
  let target := locate (cwd w) (arg_path w args) in
  (∃ log,
     written (main args w).2 = written w ++ log ∧
     files (main args w).2 = apply_writes (files w) log ∧
     Forall (λ out, ∃ k, find "." k = -1 ∧ out.1 = target ++ [k +:+ ".json"])
            log) ∧
  (∀ p, files (main args w).2 !! p ≠ files w !! p →
        ∃ k, find "." k = -1 ∧ p = target ++ [k +:+ ".json"]).
Proof.
  intros target.
  destruct (main_fine args w) as [(_ & _ & log & lines & Hall & Hf & Hw & _) _].
  fold target in Hall, Hf, Hw. split.
  - exists log. done.
  - intros p Hp. rewrite Hf in Hp.
    apply apply_writes_changed in Hp as (out & Ho & <-).
    by apply (proj1 (Forall_forall _ _) Hall).
Qed.

(** *** When a run succeeds *)

Lemma combine_pair_inv w0 target u file1 file2 w w' :
  agree w0 w → generation (name file1) → generation (name file2) →
  combine_pair target u file1 file2 w = (inr tt, w') →
  is_Some (doc_at w0 file1) ∧ is_Some (doc_at w0 file2) ∧
  joinpath target (u +:+ ".json") ∉ dirs w0.
Proof.
  intros [Hd Hf] H1 H2.
  unfold combine_pair, for_each, mbind, M_bind, load, dump, mret, M_ret,
    doc_at.
  rewrite (Hf _ H1).
  destruct (files w0 !! file1) as [[d1|]|]; try done.
  rewrite (Hf _ H2).
  destruct (files w0 !! file2) as [[d2|]|]; try done.
  rewrite Hd. case_decide; [done|]. intros _. eauto.
Qed.

Lemma compare_with_match target file1 file2 m w :
  generation (name file2) → key (name file1) = key (name file2) →
  compare_with target file1 (key (name file1)) file2 m w =
  match combine_pair target (key (name file1)) file1 file2
          (with_stdout w [key (name file1) +:+ " Match found"]) with
  | (inl e, w1) => (inl e, w1)
  | (inr _, w1) => (inr (S m), w1)
  end.
Proof.
  intros Hg E. unfold compare_with.
  erewrite bind_value by (by apply capture_uuid_generation).
  rewrite decide_True by done.
  erewrite bind_value by reflexivity.
  unfold mbind, M_bind. by destruct (combine_pair _ _ _ _ _) as [[?|?] ?].
Qed.

Lemma compare_with_no_match target file1 file2 m w :
  generation (name file2) → key (name file1) ≠ key (name file2) →
  compare_with target file1 (key (name file1)) file2 m w = (inr m, w).
Proof.
  intros Hg E. unfold compare_with.
  erewrite bind_value by (by apply capture_uuid_generation).
  by rewrite decide_False.
Qed.

Lemma inner_loop_inv w0 target file1 l2 :
  generation (name file1) →
  Forall (λ p, generation (name p)) l2 →
  ∀ m w n w', agree w0 w →
  for_each l2 (compare_with target file1 (key (name file1))) m w
    = (inr n, w') →
  readable w0 target (pairs_with file1 l2).
Proof.
  intros Hg1 Hl2. induction Hl2 as [|file2 l2 Hg2 _ IH];
    intros m w n w' Ha H; [constructor|].
  rewrite pairs_with_cons. rewrite for_each_cons in H.
  unfold mbind, M_bind in H.
  destruct (decide (key (name file1) = key (name file2))) as [E|E].
  - rewrite compare_with_match in H by done.
    destruct (combine_pair target (key (name file1)) file1 file2 _)
      as [[e|[]] w1] eqn:Ec; [done|].
    pose proof (agree_with_stdout w0 w
                  [key (name file1) +:+ " Match found"] Ha) as Ha1.
    destruct (combine_pair_inv w0 _ _ _ _ _ _ Ha1 Hg1 Hg2 Ec)
      as (H1 & H2 & Ho).
    rewrite (combine_pair_spec w0) in Ec by done.
    injection Ec as <-.
    apply Forall_app. split; [by repeat constructor|].
    eapply IH; [|exact H].
    apply (agree_step_pair w0 target w (file1, file2)); done.
  - rewrite compare_with_no_match in H by done. simpl. by eapply IH.
Qed.

Lemma outer_loop_inv w0 target l1 l2 :
  Forall (λ p, generation (name p)) l1 →
  Forall (λ p, generation (name p)) l2 →
  ∀ m w n w', agree w0 w →
  for_each l1 (scan_second target l2) m w = (inr n, w') →
  readable w0 target (pairs l1 l2).
Proof.
  intros Hl1 Hl2. induction Hl1 as [|file1 l1 Hg1 _ IH];
    intros m w n w' Ha H; [constructor|].
  rewrite pairs_cons. rewrite for_each_cons in H.
  unfold mbind, M_bind in H.
  assert (scan_second target l2 file1 m w =
          for_each l2 (compare_with target file1 (key (name file1))) m w)
    as Es.
  { unfold scan_second.
    by erewrite bind_value by (by apply capture_uuid_generation). }
  rewrite Es in H.
  destruct (for_each l2 _ m w) as [[e|k] w1] eqn:Ei; [done|].
  pose proof (inner_loop_inv w0 target file1 l2 Hg1 Hl2 _ _ _ _ Ha Ei) as Hr.
  rewrite (inner_loop_spec w0) in Ei by done. injection Ei as <- <-.
  apply Forall_app. split; [done|].
  eapply IH; [|exact H].
  apply agree_foldl_step_pair; [|done]. by apply pairs_with_generation.
Qed.

Lemma combine_files_inv w target l1 l2 w' :
  Forall (λ p, generation (name p)) l1 →
  Forall (λ p, generation (name p)) l2 →
  combine_files target l1 l2 w = (inr tt, w') →
  readable w target (pairs l1 l2).
Proof.
  intros Hl1 Hl2 H. unfold combine_files in H.
  erewrite bind_value in H by reflexivity.
  erewrite bind_value in H by reflexivity.
  unfold mbind, M_bind in H.
  destruct (for_each l1 _ 0%nat _) as [[e|k] w1] eqn:Eo; [done|].
  eapply (outer_loop_inv w); [done|done| |exact Eo].
  by apply agree_with_stdout, agree_with_stdout, agree_refl.
Qed.

Lemma main_success_inv args w :
  let target := locate (cwd w) (arg_path w args) in
  (main args w).1 = inr tt →
  exists_at w target ∧ scan w target "*.json" ≠ [] ∧
  readable w target (pairs (generation_files w target "1")
                           (generation_files w target "2")).
Proof.
  intros target. unfold main.
  destruct (decide (exists_at w target)) as [Hex|Hex]; last first.
  { erewrite bind_raised by (by apply handle_command_line_missing). done. }
  erewrite bind_value by (by apply handle_command_line_found).
  erewrite bind_value by reflexivity. cbv zeta.
  case_decide as Hn; [done|].
  erewrite bind_value by reflexivity.
  erewrite bind_value by reflexivity.
  intros H. split; [done|]. split; [by rewrite <- sorted_nil_iff|].
  set (r := combine_files _ _ _ w) in H.
  destruct r as [[e|[]] w'] eqn:Er; [done|].
  apply (combine_files_inv w target _ _ w');
    [apply generation_files_generation; by left
    |apply generation_files_generation; by right
    |exact Er].
Qed.

Lemma main_success_result args w :
  (main args w).1 = inr tt →
  main args w = (inr tt, run_result w (locate (cwd w) (arg_path w args))).
Proof.
  intros (Hex & Hs & Hr)%main_success_inv.
  apply main_spec; [by apply handle_command_line_found|done|done].
Qed.


End RunMore.

(** ** The order of the scanned lists, and running the script again *)

Module RerunFacts.
Import Stats Names Sys Script Frame NameFacts KeyFacts RunFacts FrameFacts.

Lemma compare_refl (a : string) : String.compare a a = Eq.
Proof.
  pose proof (String.compare_antisym a a) as H.
  by destruct (String.compare a a).
Qed.

Lemma compare_lt_gt (a b : string) :
  String.compare a b = Lt → String.compare b a = Gt.
Proof. intros H. by rewrite String.compare_antisym, H. Qed.

Lemma compare_gt_lt (a b : string) :
  String.compare a b = Gt → String.compare b a = Lt.
Proof. intros H. by rewrite String.compare_antisym, H. Qed.

Lemma compare_lt_trans (a b c : string) :
  String.compare a b = Lt → String.compare b c = Lt →
  String.compare a c = Lt.
Proof.
  intros Hab Hbc.
  assert (String.le a c) as Hac.
  { transitivity b; unfold String.le, String.leb; by rewrite ?Hab, ?Hbc. }
  unfold String.le, String.leb in Hac.
  destruct (String.compare a c) eqn:E; [|done|done].
  apply String.compare_eq_iff in E as ->.
  apply compare_lt_gt in Hbc. congruence.
Qed.

#[global] Instance path_le_total : Total path_le.
Proof.
  intros p. unfold path_le.
  induction p as [|a p IH]; intros [|b q]; simpl; auto.
  destruct (String.compare a b) eqn:E.
  - apply String.compare_eq_iff in E as ->. rewrite compare_refl. apply IH.
  - by left.
  - right. by rewrite (compare_gt_lt _ _ E).
Qed.

#[global] Instance path_le_antisymm : AntiSymm (=) path_le.
Proof.
  intros p. unfold path_le.
  induction p as [|a p IH]; intros [|b q]; simpl; try done.
  destruct (String.compare a b) eqn:E.
  - apply String.compare_eq_iff in E as ->. rewrite compare_refl.
    intros H1 H2. f_equal. by apply IH.
  - by rewrite (compare_lt_gt _ _ E).
  - done.
Qed.

#[global] Instance path_le_trans : Transitive path_le.
Proof.
  intros p. unfold path_le.
  induction p as [|a p IH]; intros [|b q] [|c r]; simpl; try done.
  destruct (String.compare a b) eqn:Eab; [| |done].
  - apply String.compare_eq_iff in Eab as ->.
    destruct (String.compare b c); [apply IH|done|done].
  - destruct (String.compare b c) eqn:Ebc; [| |done].
    + apply String.compare_eq_iff in Ebc as ->. by rewrite Eab.
    + by rewrite (compare_lt_trans _ _ _ Eab Ebc).
Qed.

Lemma NoDup_scan w target pat : NoDup (scan w target pat).
Proof. unfold scan. apply NoDup_filter, NoDup_fst_map_to_list. Qed.

Lemma Sorted_sorted l : Sorted path_le (sorted l).
Proof. unfold sorted. apply (Sorted_merge_sort path_le). Qed.


(** Sorting forgets the order the scan came in. *)
Lemma sorted_ext l k :
  NoDup l → NoDup k → (∀ p, p ∈ l ↔ p ∈ k) → sorted l = sorted k.
Proof.
  intros Hl Hk H. apply (Sorted_unique path_le); try apply Sorted_sorted.
  unfold sorted. rewrite !merge_sort_Permutation.
  by apply NoDup_Permutation.
Qed.

Lemma generation_files_ext w w' target d :
  d = "1"%char ∨ d = "2"%char →
  (∀ p, generation (name p) →
        (is_Some (files w !! p) ↔ is_Some (files w' !! p))) →
  generation_files w target d = generation_files w' target d.
Proof.
  intros Hd H. unfold generation_files.
  apply sorted_ext; try apply NoDup_scan.
  intros p. rewrite !elem_of_scan.
  split; intros (Hs & Hb & Hm); (split; [|done]);
    (apply (H p); [destruct Hd as [-> | ->]; [by left | by right]|done]).
Qed.

(** The last write to a path decides what the path holds. *)
Lemma apply_writes_snoc (fs : gmap Path FileData)
    (log : list (Path * StatsDocument)) out :
  apply_writes fs (log ++ [out]) = <[out.1 := Json out.2]> (apply_writes fs log).
Proof. unfold apply_writes. by rewrite foldl_app. Qed.

Lemma apply_writes_lookup_written (log : list (Path * StatsDocument))
    (fs fs' : gmap Path FileData) (p : Path) :
  p ∈ log.*1 → apply_writes fs log !! p = apply_writes fs' log !! p.
Proof.
  induction log as [|out log IH] using rev_ind; [by intros ?%elem_of_nil|].
  rewrite fmap_app, elem_of_app, !apply_writes_snoc. simpl.
  intros Hp. destruct (decide (out.1 = p)) as [<-|Hne].
  - by rewrite !lookup_insert_eq.
  - rewrite !lookup_insert_ne by done. apply IH.
    destruct Hp as [Hp|Hp]; [done|].
    by apply list_elem_of_singleton in Hp.
Qed.

Lemma apply_writes_twice (log : list (Path * StatsDocument))
    (fs : gmap Path FileData) :
  apply_writes (apply_writes fs log) log = apply_writes fs log.
Proof.
  apply map_eq. intros p.
  destruct (decide (p ∈ log.*1)) as [Hp|Hp].
  - by apply apply_writes_lookup_written.
  - apply apply_writes_lookup_ne. apply Forall_forall. intros out Ho E.
    apply Hp. apply list_elem_of_fmap. by exists out.
Qed.

End RerunFacts.

(** ** Scanned lists, a second run, the command line, the count *)

Module RunAgain.
Import Stats Names Sys Script Frame NameFacts KeyFacts RunFacts FrameFacts.
Import RunMore RerunFacts.


Lemma outputs_ext w w1 target (prs : list (Path * Path)) :
  (∀ p, generation (name p) → files w1 !! p = files w !! p) →
  Forall (λ pr, generation (name pr.1) ∧ generation (name pr.2)) prs →
  output_of w1 target <$> prs = output_of w target <$> prs.
Proof.
  intros Hk Hg. apply Forall_fmap_ext.
  eapply Forall_impl; [exact Hg|]. intros pr [H1 H2].
  unfold output_of, doc_at. by rewrite (Hk _ H1), (Hk _ H2).
Qed.

Lemma pairs_both_generation w target :
  Forall (λ pr, generation (name pr.1) ∧ generation (name pr.2))
    (pairs (generation_files w target "1") (generation_files w target "2")).
Proof.
  apply Forall_forall. intros pr (H1 & H2 & _)%elem_of_pairs. split.
  - apply (proj1 (Forall_forall _ _)
             (generation_files_generation w target "1" (or_introl eq_refl))).
    done.
  - apply (proj1 (Forall_forall _ _)
             (generation_files_generation w target "2" (or_intror eq_refl))).
    done.
Qed.

(** X16. Running the script again on the tree a successful run has left
    succeeds too, writes the same documents to the same paths once more,
    and leaves the tree as the first run left it: the results of the
    first run are not taken for input. *)
Theorem second_run_changes_nothing args w :
  (main args w).1 = inr tt →
  (main args (main args w).2).1 = inr tt ∧
  files (main args (main args w).2).2 = files (main args w).2 ∧
  ∃ log, written (main args w).2 = written w ++ log ∧
         written (main args (main args w).2).2 =
           written (main args w).2 ++ log.
Proof.
  intros H.
  pose proof (main_success_inv args w H) as (Hex & Hs & Hr).
  destruct (main_fine args w) as [Hg _].
  rewrite (main_success_result args w H) in *. cbn [fst snd] in Hg |- *.
  set (target := locate (cwd w) (arg_path w args)) in *.
  set (w1 := run_result w target) in *.
  assert (cwd w1 = cwd w) as Hcwd by apply Hg.
  assert (dirs w1 = dirs w) as Hdirs by apply Hg.
  assert (∀ p, generation (name p) → files w1 !! p = files w !! p) as Hk
    by (intros p Hp; by eapply grown_generation_kept).
  assert (locate (cwd w1) (arg_path w1 args) = target) as Ht.
  { unfold arg_path. by rewrite Hcwd. }
  assert (∀ d, d = "1"%char ∨ d = "2"%char →
               generation_files w1 target d = generation_files w target d)
    as Hgen.
  { intros d Hd. apply generation_files_ext; [done|].
    intros p Hp. by rewrite (Hk p Hp). }
  assert (main args w1 = (inr tt, run_result w1 target)) as Hm.
  { apply main_spec.
    - rewrite <- Ht. apply handle_command_line_found. rewrite Ht.
      destruct Hex as [Hex|[Hex|Hex]]; [by left|right; left|right; right].
      + by rewrite Hdirs.
      + by eapply grown_is_Some.
    - destruct (scan w target "*.json") as [|p l] eqn:E; [done|].
      assert (p ∈ scan w target "*.json") as Hp
        by (rewrite E; apply list_elem_of_here).
      apply elem_of_scan in Hp as (Hp & Hb & Hn).
      assert (p ∈ scan w1 target "*.json") as Hp1.
      { apply elem_of_scan. split; [by eapply grown_is_Some|done]. }
      intros E1. rewrite E1 in Hp1. by apply elem_of_nil in Hp1.
    - rewrite !Hgen by auto.
      pose proof (pairs_both_generation w target) as Hboth.
      unfold readable in *. apply Forall_forall. intros pr Hpr.
      destruct (proj1 (Forall_forall _ _) Hr pr Hpr) as (H1 & H2 & Ho).
      destruct (proj1 (Forall_forall _ _) Hboth pr Hpr) as [G1 G2].
      unfold doc_at in *. rewrite (Hk _ G1), (Hk _ G2), Hdirs. done. }
  rewrite Hm. cbn [fst snd].
  pose proof (outputs_ext w w1 target _ Hk (pairs_both_generation w target))
    as Hout.
  split; [done|]. split.
  - rewrite run_result_files, !Hgen by auto. rewrite Hout.
    unfold w1. rewrite run_result_files.
    apply (apply_writes_twice _ (files w)).
  - eexists. split; [apply run_result_written|].
    rewrite run_result_written, !Hgen by auto. by rewrite Hout.
Qed.

Lemma second_run_changes_nothing_witness :
  (main ["/srv/stats"] (main ["/srv/stats"] Samples.two_generations).2).1 =
    inr tt ∧
  files (main ["/srv/stats"] (main ["/srv/stats"] Samples.two_generations).2).2
    = files (main ["/srv/stats"] Samples.two_generations).2.
Proof.
  destruct (second_run_changes_nothing
              ["/srv/stats"] Samples.two_generations) as (H1 & H2 & _).
  - vm_compute. reflexivity.
  - split; [exact H1 | exact H2].
Defined.



Lemma locate_plain (acc l : Path) :
  ".." ∉ l →
  foldl (λ acc c, if decide (c = "..") then removelast acc else acc ++ [c])
        acc l = acc ++ l.
Proof.
  revert acc. induction l as [|c l IH]; intros acc H; simpl.
  - by rewrite app_nil_r.
  - apply not_elem_of_cons in H as [Hc Hl].
    rewrite decide_False by done. rewrite IH by done.
    by rewrite <- app_assoc.
Qed.

(** X18. With no path argument, or an empty one, the root is the
    working directory itself, provided it exists (and its path, being
    resolved, has no [".."] step). *)
Theorem no_argument_means_cwd w :
  ".." ∉ cwd w → exists_at w (cwd w) →
  handle_command_line [] w = (inr (cwd w), w) ∧
  handle_command_line [EmptyString] w = (inr (cwd w), w).
Proof.
  intros Hdd Hex.
  assert (locate (cwd w) (PurePath_of_abs (cwd w)) = cwd w) as E.
  { unfold locate, PurePath_of_abs. simpl. by apply locate_plain. }
  split.
  - rewrite handle_command_line_found; unfold arg_path; simpl;
      by rewrite E.
  - rewrite handle_command_line_found; unfold arg_path; simpl;
      by rewrite E.
Qed.

Lemma no_argument_means_cwd_witness :
  handle_command_line [] MoreSamples.inside_stats_dir =
    (inr Samples.stats_dir, MoreSamples.inside_stats_dir) ∧
  handle_command_line [EmptyString] MoreSamples.inside_stats_dir =
    (inr Samples.stats_dir, MoreSamples.inside_stats_dir).
Proof.
  apply (no_argument_means_cwd MoreSamples.inside_stats_dir).
  - apply (bool_decide_unpack _). vm_compute. exact I.
  - apply (bool_decide_unpack _). vm_compute. exact I.
Defined.

(** X19. After a successful run the last line printed, [Matched n
    files], carries the number of documents the run has written. *)
Theorem matched_count_is_number_of_writes args w :
  (main args w).1 = inr tt →
  ∃ log, written (main args w).2 = written w ++ log ∧
         last (stdout (main args w).2) = Some (matched_line (length log)).
Proof.
  intros H. rewrite (main_success_result args w H). cbn [fst snd].
  eexists. split; [apply run_result_written|].
  rewrite run_result_stdout. cbv zeta.
  rewrite length_fmap, !app_assoc. apply last_snoc.
Qed.

Lemma matched_count_is_number_of_writes_witness :
  ∃ log,
    written (main ["/srv/stats"] Samples.two_generations).2 =
      written Samples.two_generations ++ log ∧
    last (stdout (main ["/srv/stats"] Samples.two_generations).2) =
      Some (matched_line (length log)).
Proof.
  apply matched_count_is_number_of_writes. vm_compute. reflexivity.
Defined.

(** X20. When several matched pairs carry the same key they are written
    to the same path one after the other, and the path ends up holding
    the merge of the last of them in loop order. *)
Theorem last_pair_of_a_key_wins args w prs1 pr prs2 :
  let target := locate (cwd w) (arg_path w args) in
  (main args w).1 = inr tt →
  pairs (generation_files w target "1") (generation_files w target "2") =
    prs1 ++ pr :: prs2 →
  Forall (λ pr', key (name pr'.1) ≠ key (name pr.1)) prs2 →
  files (main args w).2 !! output_path target pr =
    Some (Json (output_of w target pr).2).
Proof.
  intros target H Hprs Hlast.
  rewrite (main_success_result args w H). cbn [fst snd]. fold target.
  rewrite run_result_files, Hprs.
  rewrite fmap_app, fmap_cons, foldl_app. simpl.
  rewrite (apply_writes_lookup_ne (output_of w target <$> prs2)).
  - apply lookup_insert_eq.
  - apply Forall_fmap. eapply Forall_impl; [exact Hlast|].
    intros pr' Hne E. simpl in E. apply Hne.
    unfold output_path, joinpath in E.
    apply app_inj_tail in E as [_ E]. by apply str_app_inj_r in E.
Qed.

Lemma last_pair_of_a_key_wins_witness :
  files (main ["/srv/stats"] MoreSamples.two_copies).2
    !! (Samples.stats_dir ++ ["1234.json"]) =
  Some (Json (merge Samples.new_doc Samples.new_doc)).
Proof.
  apply (last_pair_of_a_key_wins ["/srv/stats"] MoreSamples.two_copies
           [(Samples.stats_dir ++ ["a"; "1234.1.json"],
             Samples.stats_dir ++ ["1234.2.json"])]
           (Samples.stats_dir ++ ["b"; "1234.1.json"],
            Samples.stats_dir ++ ["1234.2.json"]) []).
  - vm_compute. reflexivity.
  - vm_compute. reflexivity.
  - constructor.
Defined.



End RunAgain.
